(** * PhiFlow JAX backend: a shallow embedding of [phi/jax/_jax_backend.py]

    The development follows the methods of [JaxBackend] that carry the
    backend contract: [while_loop], [scatter], [gather], [cast],
    [as_tensor], [functional_gradient], [conjugate_gradient] and the random
    samplers.  Python exceptions are values of [Exception], computations that
    may raise live in [result], and the calls into the array engine
    (conjugate gradients, automatic differentiation, the PRNG, array
    conversion) are section variables, instantiated further down by exact
    rational stand-ins wherever a statement is evaluated on concrete data. *)

From Stdlib Require Import ZArith QArith Qminmax List Ascii String Bool.
From Stdlib Require Import Lia Arith.
Import ListNotations.

Set Implicit Arguments.
Set Warnings "-register-all".

Local Open Scope Z_scope.

(** ** Exceptions and results *)

Inductive Exception : Type :=
| AssertionError
| NotImplementedError
| IndexError
| ValueError
| TypeError
| KeyError
| IncompatibleDimensions.

Inductive result (A : Type) : Type :=
| Ok (a : A)
| Raise (e : Exception).

Arguments Ok {A} a.
Arguments Raise {A} e.

Definition bind {A B : Type} (r : result A) (k : A -> result B) : result B :=
  match r with
  | Ok a => k a
  | Raise e => Raise e
  end.

Notation "x <- c ;; k" := (bind c (fun x => k))
  (at level 61, c at next level, right associativity).

Definition assert (b : bool) : result unit :=
  if b then Ok tt else Raise AssertionError.

Definition is_ok {A : Type} (r : result A) : bool :=
  match r with Ok _ => true | Raise _ => false end.

(** [mapM f l] runs [f] over [l] from the left and stops at the first
    exception, as a Python [for] loop that appends to a list does. *)
Fixpoint mapM {A B : Type} (f : A -> result B) (l : list A) : result (list B) :=
  match l with
  | [] => Ok []
  | a :: l' => b <- f a ;; bs <- mapM f l' ;; Ok (b :: bs)
  end.

Lemma mapM_ok_map {A B : Type} (f : A -> result B) (g : A -> B) (l : list A) :
  (forall a, In a l -> f a = Ok (g a)) -> mapM f l = Ok (map g l).
Proof.
  induction l as [|a l IH]; intros H; simpl; [reflexivity|].
  rewrite (H a (or_introl eq_refl)); simpl.
  rewrite IH by (intros; apply H; now right).
  reflexivity.
Qed.

Lemma mapM_seq_ok {B : Type} (f : nat -> result B) (n : nat) :
  forall s : nat,
    (forall b, (b < n)%nat -> is_ok (f (s + b)%nat) = true) ->
    exists rs,
      mapM f (seq s n) = Ok rs /\
      List.length rs = n /\
      forall b d, (b < n)%nat -> f (s + b)%nat = Ok (nth b rs d).
Proof.
  induction n as [|n IH]; intros s Hok.
  - exists []. repeat split. intros b d Hb. lia.
  - destruct (IH (S s)) as (rs & Hrs & Hlen & Hnth).
    { intros b Hb. replace (S s + b)%nat with (s + S b)%nat by lia.
      apply Hok. lia. }
    specialize (Hok 0%nat ltac:(lia)). rewrite Nat.add_0_r in Hok.
    destruct (f s) as [v|e] eqn:Hfs; [|discriminate].
    exists (v :: rs). cbn [seq mapM]. rewrite Hfs. cbn [bind].
    rewrite Hrs. cbn [bind]. repeat split.
    + cbn [List.length]. now rewrite Hlen.
    + intros b d Hb. destruct b as [|b].
      * now rewrite Nat.add_0_r.
      * cbn [nth]. replace (s + S b)%nat with (S s + b)%nat by lia.
        apply Hnth. lia.
Qed.

Lemma mapM_first_raise {A B : Type} (f : A -> result B) (e : Exception)
      (l1 : list A) (a : A) (l2 : list A) :
  (forall x, In x l1 -> is_ok (f x) = true) ->
  f a = Raise e ->
  mapM f (l1 ++ a :: l2) = Raise e.
Proof.
  induction l1 as [|x l1 IH]; intros Hok Ha; cbn [app mapM].
  - now rewrite Ha.
  - specialize (Hok x (or_introl eq_refl)) as Hx.
    destruct (f x) as [v|e']; [|discriminate]. cbn [bind].
    rewrite IH; [reflexivity| |exact Ha].
    intros y Hy. apply Hok. now right.
Qed.

(** ** [while_loop] *)

Module WhileLoop.
Section Loop.
Variable V : Type.
Variable cond : V -> bool.
Variable body : V -> V.

(** The Python loop carries [loop_vars] and the counter [i]; [fuel] bounds
    the number of evaluations of [cond], [None] meaning that the bound was
    reached before the loop left. *)
Fixpoint while_loop_from (fuel : nat) (loop_vars : V) (i : Z)
         (maximum_iterations : option Z) : option V :=
  match fuel with
  | O => None
  | S fuel' =>
      if cond loop_vars then
        if match maximum_iterations with
           | Some k => i =? k
           | None => false
           end
        then Some loop_vars
        else while_loop_from fuel' (body loop_vars) (i + 1) maximum_iterations
      else Some loop_vars
  end.

Definition while_loop (fuel : nat) (loop_vars : V)
           (maximum_iterations : option Z) : option V :=
  while_loop_from fuel loop_vars 0 maximum_iterations.

(** [iterate n v] is [body] applied [n] times to [v]. *)
Definition iterate (n : nat) (v : V) : V := Nat.iter n body v.

Lemma iterate_shift (n : nat) (v : V) :
  iterate n (body v) = iterate (S n) v.
Proof.
  unfold iterate. induction n as [|n IH]; simpl; [reflexivity|].
  now rewrite IH.
Qed.

(** Without a cap the loop returns at the first state where [cond] fails. *)
Lemma while_loop_from_uncapped (n : nat) :
  forall (v : V) (i : Z) (fuel : nat),
    (forall j, (j < n)%nat -> cond (iterate j v) = true) ->
    cond (iterate n v) = false ->
    (n < fuel)%nat ->
    while_loop_from fuel v i None = Some (iterate n v).
Proof.
  induction n as [|n IH]; intros v i fuel Hlt Hn Hfuel.
  - destruct fuel as [|fuel]; [lia|]. cbn [while_loop_from].
    unfold iterate in Hn; simpl in Hn. now rewrite Hn.
  - destruct fuel as [|fuel]; [lia|]. cbn [while_loop_from].
    assert (H0 : cond v = true) by (apply (Hlt 0%nat); lia).
    rewrite H0. rewrite <- iterate_shift. apply IH.
    + intros j Hj. rewrite iterate_shift. apply Hlt. lia.
    + now rewrite iterate_shift.
    + lia.
Qed.

(** With a cap [k] and counter [i <= k] the loop leaves after at most
    [k - i] further applications of [body]. *)
Lemma while_loop_from_capped (d : nat) :
  forall (v : V) (i k : Z),
    k - i = Z.of_nat d ->
    exists n : nat,
      (n <= d)%nat /\
      (forall j, (j < n)%nat -> cond (iterate j v) = true) /\
      (cond (iterate n v) = false \/ n = d) /\
      forall fuel, (n < fuel)%nat ->
        while_loop_from fuel v i (Some k) = Some (iterate n v).
Proof.
  induction d as [|d IH]; intros v i k Hd.
  - exists 0%nat. repeat split.
    + lia.
    + intros j Hj; lia.
    + now right.
    + intros fuel Hfuel. destruct fuel as [|fuel]; [lia|]. cbn [while_loop_from].
      replace (i =? k) with true by (symmetry; apply Z.eqb_eq; lia).
      now destruct (cond v).
  - destruct (cond v) eqn:Hc.
    + destruct (IH (body v) (i + 1) k ltac:(lia)) as (n & Hn & Hall & Hend & Hrun).
      exists (S n). repeat split.
      * lia.
      * intros j Hj. destruct j as [|j]; [exact Hc|].
        rewrite <- iterate_shift. apply Hall. lia.
      * destruct Hend as [Hend|Hend].
        -- left. now rewrite <- iterate_shift.
        -- right. lia.
      * intros fuel Hfuel. destruct fuel as [|fuel]; [lia|]. cbn [while_loop_from].
        rewrite Hc.
        replace (i =? k) with false by (symmetry; apply Z.eqb_neq; lia).
        rewrite <- iterate_shift. apply Hrun. lia.
    + exists 0%nat. repeat split.
      * lia.
      * intros j Hj; lia.
      * now left.
      * intros fuel Hfuel. destruct fuel as [|fuel]; [lia|]. cbn [while_loop_from].
        now rewrite Hc.
Qed.
(** C8: [while_loop] applies [body] while [cond] holds on the current loop
    variables.  With [maximum_iterations = k] (a count, [0 <= k]) there is
    a number [n <= k] of applications such that [cond] held before each of
    them, and either [cond] fails after the [n]-th or [n = k]; the call returns
    exactly the loop variables reached after those [n] applications, for any
    fuel above [n].  Without a cap the call returns the loop variables of the
    first state where [cond] fails.  The loop is a function of its arguments
    alone: nothing but [cond] and the cap makes it leave. *)
Theorem while_loop_stops_at_cond_or_cap (v : V) :
  (forall k : Z, 0 <= k ->
     exists n : nat,
       Z.of_nat n <= k /\
       (forall j, (j < n)%nat -> cond (iterate j v) = true) /\
       (cond (iterate n v) = false \/ Z.of_nat n = k) /\
       forall fuel, (n < fuel)%nat ->
         while_loop fuel v (Some k) = Some (iterate n v)) /\
  (forall n : nat,
     (forall j, (j < n)%nat -> cond (iterate j v) = true) ->
     cond (iterate n v) = false ->
     forall fuel, (n < fuel)%nat ->
       while_loop fuel v None = Some (iterate n v)).
Proof.
  split.
  - intros k Hk.
    destruct (while_loop_from_capped (Z.to_nat k) v 0 k ltac:(lia))
      as (n & Hn & Hall & Hend & Hrun).
    exists n. repeat split; try assumption.
    + lia.
    + destruct Hend as [Hend|Hend]; [now left|right; lia].
  - intros n Hall Hend fuel Hfuel.
    now apply while_loop_from_uncapped.
Qed.
End Loop.

(** A counting loop: [cond] is [x < 5], [body] adds one. *)
Definition count_cond (x : Z) : bool := x <? 5.
Definition count_body (x : Z) : Z := x + 1.

Lemma while_loop_stops_at_cond_or_cap_witness :
  (exists n : nat,
     Z.of_nat n <= 3 /\
     (forall j, (j < n)%nat -> count_cond (iterate count_body j 0) = true) /\
     (count_cond (iterate count_body n 0) = false \/ Z.of_nat n = 3) /\
     forall fuel, (n < fuel)%nat ->
       while_loop count_cond count_body fuel 0 (Some 3)
       = Some (iterate count_body n 0)) /\
  while_loop count_cond count_body 6 0 None = Some 5.
Proof.
  destruct (while_loop_stops_at_cond_or_cap count_cond count_body 0)
    as [Hcap Hfree].
  split.
  - apply (Hcap 3). lia.
  - apply (Hfree 5%nat).
    + intros j Hj.
      do 5 (destruct j as [|j]; [reflexivity|]). lia.
    + reflexivity.
    + lia.
Defined.

Example while_loop_cap_3 :
  while_loop count_cond count_body 10 0 (Some 3) = Some 3.
Proof. reflexivity. Qed.

Example while_loop_cap_0 :
  while_loop count_cond count_body 10 0 (Some 0) = Some 0.
Proof. reflexivity. Qed.

Example while_loop_cap_beyond_cond :
  while_loop count_cond count_body 10 0 (Some 8) = Some 5.
Proof. reflexivity. Qed.
End WhileLoop.

(** ** Dense arrays

    An array of the engine is its shape together with its elements, read by
    a multi-index.  Only positions inside the shape carry meaning. *)

Module Array.

Record Tensor (A : Type) : Type := mkTensor {
  shape : list nat;
  elem : list nat -> A
}.

Arguments mkTensor {A} shape elem.
Arguments shape {A} t.
Arguments elem {A} t _.

(** [tensor.shape[0]]: Python raises [IndexError] on the empty tuple. *)
Definition dim0 {A : Type} (t : Tensor A) : result nat :=
  match shape t with
  | d :: _ => Ok d
  | [] => Raise IndexError
  end.

(** [tensor.shape[-1]]. *)
Definition last_dim {A : Type} (t : Tensor A) : result nat :=
  match shape t with
  | [] => Raise IndexError
  | d :: s => Ok (last s d)
  end.

(** [tensor[b, ...]] for a Python integer [b]: the slice along the first
    axis.  A position outside the axis raises, as NumPy does; what jax does
    there depends on its version, and the statements below only index inside
    the axis. *)
Definition index {A : Type} (t : Tensor A) (b : nat) : result (Tensor A) :=
  match shape t with
  | d :: s =>
      if (b <? d)%nat
      then Ok (mkTensor s (fun ix => elem t (b :: ix)))
      else Raise IndexError
  | [] => Raise IndexError
  end.

(** [jnp.zeros(shape)] and [jnp.ones(shape)]. *)
Definition zeros (s : list nat) : Tensor Q := mkTensor s (fun _ => 0%Q).
Definition ones (s : list nat) : Tensor Q := mkTensor s (fun _ => 1%Q).

(** [jnp.stack(values)] along axis 0; an empty list raises [ValueError]. *)
Definition stack {A : Type} (values : list (Tensor A)) : result (Tensor A) :=
  match values with
  | [] => Raise ValueError
  | t :: _ =>
      Ok (mkTensor (List.length values :: shape t)
            (fun ix =>
               match ix with
               | b :: r => elem (nth b values t) r
               | [] => elem t []
               end))
  end.

(** [jnp.maximum(c, t)] with a scalar [c], and elementwise [a / b]. *)
Definition maximum (c : Q) (t : Tensor Q) : Tensor Q :=
  mkTensor (shape t) (fun ix => Qmax c (elem t ix)).

Definition divide (a b : Tensor Q) : Tensor Q :=
  mkTensor (shape a) (fun ix => (elem a ix / elem b ix)%Q).

(** Arrays written out as nested lists, for concrete inputs. *)
Definition of_list2 {A : Type} (d : A) (rows cols : nat) (l : list (list A))
  : Tensor A :=
  mkTensor [rows; cols]
    (fun ix =>
       match ix with
       | [i; j] => nth j (nth i l []) d
       | _ => d
       end).

Definition of_list3 {A : Type} (d : A) (n0 n1 n2 : nat)
           (l : list (list (list A))) : Tensor A :=
  mkTensor [n0; n1; n2]
    (fun ix =>
       match ix with
       | [i; j; k] => nth k (nth j (nth i l []) []) d
       | _ => d
       end).

(** [jax.lax.scatter_add(operand, scatter_indices, updates, dnums)] with the
    dimension numbers that [scatter] fixes: [update_window_dims=(1,)],
    [inserted_window_dims=(0, 1)], [scatter_dims_to_operand_dims=(0, 1)].
    The operand is [X, Y, C], the indices are [N, 2], the updates are
    [N, C]; update row [i] is added to the operand's channel vector at
    [(indices[i,0], indices[i,1])], and a row whose index lies outside the
    operand is skipped.  Other shapes are refused by the engine. *)
Definition scatter_add_step (X Y : nat) (scatter_indices : Tensor Z)
           (updates : Tensor Q) (operand : Tensor Q) (i : nat) : Tensor Q :=
  let ix := elem scatter_indices [i; 0%nat] in
  let iy := elem scatter_indices [i; 1%nat] in
  if (0 <=? ix) && (ix <? Z.of_nat X) && (0 <=? iy) && (iy <? Z.of_nat Y)
  then mkTensor (shape operand)
         (fun pos =>
            match pos with
            | [px; py; c] =>
                if (Z.of_nat px =? ix) && (Z.of_nat py =? iy)
                then (elem operand pos + elem updates [i; c])%Q
                else elem operand pos
            | _ => elem operand pos
            end)
  else operand.

Definition scatter_add (operand : Tensor Q) (scatter_indices : Tensor Z)
           (updates : Tensor Q) : result (Tensor Q) :=
  match shape operand, shape scatter_indices, shape updates with
  | [X; Y; C], [N; 2%nat], [N'; C'] =>
      if (N =? N')%nat && (C =? C')%nat
      then Ok (fold_left (scatter_add_step X Y scatter_indices updates)
                 (seq 0 N) operand)
      else Raise TypeError
  | _, _, _ => Raise TypeError
  end.

End Array.

(** ** Batch sizes *)

(** Modelled from the spec: [combined_dim] of
    [phi.math.backend._backend_helper], which is imported by the backend but
    not part of the sources at hand.  The combined-batch-size rule resolves
    two batch sizes by taking the maximum, provided every smaller side has
    size 1; any other mismatch is an error. *)
Definition combined_dim (dim1 dim2 : nat) : result nat :=
  if (dim1 =? dim2)%nat then Ok dim1
  else if (Nat.min dim1 dim2 =? 1)%nat then Ok (Nat.max dim1 dim2)
  else Raise IncompatibleDimensions.

(** ** [gather] and [scatter] *)

Module Scatter.
Import Array.

Definition string_in (s : string) (l : list string) : bool :=
  existsb (String.eqb s) l.

Definition duplicates_handlings : list string :=
  ["undefined"; "add"; "mean"; "any"]%string.

Definition outside_handlings : list string :=
  ["discard"; "clamp"; "undefined"]%string.

(** [values[indices]]: an integer array indexes the first axis, so a
    [values] tensor without axes raises [IndexError].  The result has shape
    [indices.shape + values.shape[1:]].  Negative indices count from the
    end; the engine clamps what is still outside the axis. *)
Definition normalize_index (n : nat) (i : Z) : nat :=
  let i' := if i <? 0 then i + Z.of_nat n else i in
  Z.to_nat (Z.max 0 (Z.min i' (Z.of_nat n - 1))).

Definition gather {A : Type} (values : Tensor A) (indices : Tensor Z)
  : result (Tensor A) :=
  match shape values with
  | [] => Raise IndexError
  | n :: rest =>
      let r := List.length (shape indices) in
      Ok (mkTensor (shape indices ++ rest)
            (fun pos =>
               elem values
                 (normalize_index n (elem indices (firstn r pos))
                    :: skipn r pos)))
  end.

(** The part of [scatter] below the two entry assertions. *)
Definition scatter_policy (indices : Tensor Z) (values : Tensor Q)
           (shape : list nat) (duplicates_handling : string)
  : result (Tensor Q) :=
  ib <- dim0 indices ;;
  vb <- dim0 values ;;
  batch_size <- combined_dim ib vb ;;
  if String.eqb duplicates_handling "add" then Raise NotImplementedError
  else if String.eqb duplicates_handling "mean" then
    channels <- last_dim values ;;
    let zeros := zeros (shape ++ [channels]) in
    let ones := ones (tl (Array.shape values)) in
    rows <- mapM (fun b =>
                    indices_b <- index indices b ;;
                    values_b <- index values b ;;
                    s <- scatter_add zeros indices_b values_b ;;
                    c <- scatter_add zeros indices_b ones ;;
                    Ok (s, c))
                 (seq 0 batch_size) ;;
    sums <- stack (map fst rows) ;;
    counts <- stack (map snd rows) ;;
    let counts := maximum 1 counts in
    Ok (divide sums counts)
  else Raise NotImplementedError.

Definition scatter (indices : Tensor Z) (values : Tensor Q) (shape : list nat)
           (duplicates_handling outside_handling : string)
  : result (Tensor Q) :=
  _ <- assert (string_in duplicates_handling duplicates_handlings) ;;
  _ <- assert (string_in outside_handling outside_handlings) ;;
  scatter_policy indices values shape duplicates_handling.

(** Mathematical vocabulary for the statements: the update rows of batch
    element [b] written to cell [(x, y)], and the sum of a list. *)
Definition writes (indices : Tensor Z) (b N x y : nat) : list nat :=
  filter (fun i => (Z.of_nat x =? elem indices [b; i; 0%nat])
                   && (Z.of_nat y =? elem indices [b; i; 1%nat]))
         (seq 0 N).

Fixpoint Qsum (l : list Q) : Q :=
  match l with
  | [] => 0%Q
  | q :: l' => (q + Qsum l')%Q
  end.

(** The index clamp that the disabled [outside_handling == 'clamp'] lines of
    [scatter] describe: [jnp.maximum(0, jnp.minimum(indices, shape - 1))],
    for indices [B, N, 2] and a two-dimensional [shape]. *)
Definition clamp_indices (indices : Tensor Z) (shape : list nat) : Tensor Z :=
  mkTensor (Array.shape indices)
    (fun pos =>
       Z.max 0 (Z.min (elem indices pos)
                      (Z.of_nat (nth (last pos 0%nat) shape 0%nat) - 1))).

(** *** Lemmas on the engine calls *)


Lemma scatter_add_step_elem (X Y : nat) (idx : Tensor Z) (upd acc : Tensor Q)
      (i x y c : nat) :
  (x < X)%nat -> (y < Y)%nat ->
  elem (scatter_add_step X Y idx upd acc i) [x; y; c] =
  if (Z.of_nat x =? elem idx [i; 0%nat]) && (Z.of_nat y =? elem idx [i; 1%nat])
  then (elem acc [x; y; c] + elem upd [i; c])%Q
  else elem acc [x; y; c].
Proof.
  intros Hx Hy. unfold scatter_add_step.
  destruct (Z.of_nat x =? elem idx [i; 0%nat]) eqn:Ex;
    destruct (Z.of_nat y =? elem idx [i; 1%nat]) eqn:Ey; simpl;
    match goal with
    | |- context [if ?b then mkTensor _ _ else _] => destruct b eqn:Eb
    end; simpl; rewrite ?Ex, ?Ey; simpl; try reflexivity.
  apply Z.eqb_eq in Ex, Ey. rewrite <- Ex, <- Ey in Eb.
  exfalso.
  assert (Hb : (0 <=? Z.of_nat x) && (Z.of_nat x <? Z.of_nat X)
               && (0 <=? Z.of_nat y) && (Z.of_nat y <? Z.of_nat Y) = true).
  { repeat (apply andb_true_intro; split);
      first [apply Z.leb_le; lia | apply Z.ltb_lt; lia]. }
  congruence.
Qed.

Lemma fold_scatter_add_step_elem (X Y : nat) (idx : Tensor Z)
      (upd : Tensor Q) (x y c : nat) :
  (x < X)%nat -> (y < Y)%nat ->
  forall l acc,
    (elem (fold_left (scatter_add_step X Y idx upd) l acc) [x; y; c] ==
     elem acc [x; y; c]
     + Qsum (map (fun i => elem upd [i; c])
               (filter (fun i => (Z.of_nat x =? elem idx [i; 0%nat])
                                 && (Z.of_nat y =? elem idx [i; 1%nat])) l)))%Q.
Proof.
  intros Hx Hy. induction l as [|i l IH]; intros acc; simpl.
  - ring.
  - rewrite IH. rewrite scatter_add_step_elem by assumption.
    destruct (_ && _); simpl; ring.
Qed.

Lemma Qsum_ones (A : Type) (l : list A) :
  (Qsum (map (fun _ => 1%Q) l) == inject_Z (Z.of_nat (List.length l)))%Q.
Proof.
  induction l as [|a l IH]; simpl; [reflexivity|].
  rewrite IH. rewrite Zpos_P_of_succ_nat. unfold Z.succ.
  rewrite inject_Z_plus. ring.
Qed.

Lemma stack_map_seq (A : Type) (f : nat -> Tensor A) (B : nat) :
  (1 <= B)%nat ->
  exists t, stack (map f (seq 0 B)) = Ok t /\
            shape t = B :: shape (f 0%nat) /\
            forall b r, (b < B)%nat -> elem t (b :: r) = elem (f b) r.
Proof.
  intros HB. destruct B as [|B]; [lia|].
  cbn [seq map stack]. eexists. split; [reflexivity|]. split.
  - cbn [shape]. f_equal. cbn [List.length]. f_equal.
    now rewrite length_map, length_seq.
  - intros b r Hb. cbn [elem].
    change (f 0%nat :: map f (seq 1 B)) with (map f (seq 0 (S B))).
    rewrite (map_nth f (seq 0 (S B)) 0%nat b).
    now rewrite seq_nth.
Qed.

(** The sums and counts that the ['mean'] branch accumulates for batch
    element [b]. *)
Definition mean_row (indices : Tensor Z) (values : Tensor Q)
           (N C X Y b : nat) : Tensor Q * Tensor Q :=
  let indices_b := mkTensor [N; 2%nat] (fun ix => elem indices (b :: ix)) in
  let values_b := mkTensor [N; C] (fun ix => elem values (b :: ix)) in
  (fold_left (scatter_add_step X Y indices_b values_b) (seq 0 N)
             (zeros [X; Y; C]),
   fold_left (scatter_add_step X Y indices_b (ones [N; C])) (seq 0 N)
             (zeros [X; Y; C])).

Lemma scatter_policy_mean_rows (indices : Tensor Z) (values : Tensor Q)
      (B N C X Y : nat) :
  shape indices = [B; N; 2%nat] ->
  shape values = [B; N; C] ->
  mapM (fun b =>
          indices_b <- index indices b ;;
          values_b <- index values b ;;
          s <- scatter_add (zeros ([X; Y] ++ [C])) indices_b values_b ;;
          c <- scatter_add (zeros ([X; Y] ++ [C])) indices_b
                           (ones (tl (shape values))) ;;
          Ok (s, c))
       (seq 0 B)
  = Ok (map (mean_row indices values N C X Y) (seq 0 B)).
Proof.
  intros Hi Hv. apply mapM_ok_map. intros b Hb.
  apply in_seq in Hb.
  assert (Hlt : (b <? B)%nat = true) by (apply Nat.ltb_lt; lia).
  unfold index. rewrite Hi, Hv, Hlt. cbn [bind tl].
  unfold scatter_add. cbn [shape zeros ones app].
  rewrite !Nat.eqb_refl. cbn [andb bind].
  reflexivity.
Qed.

Lemma mean_row_sum (indices : Tensor Z) (values : Tensor Q)
      (N C X Y b x y c : nat) :
  (x < X)%nat -> (y < Y)%nat ->
  (elem (fst (mean_row indices values N C X Y b)) [x; y; c] ==
   Qsum (map (fun i => elem values [b; i; c]) (writes indices b N x y)))%Q.
Proof.
  intros Hx Hy. unfold mean_row, writes. cbn [fst].
  rewrite fold_scatter_add_step_elem by assumption.
  cbn [elem zeros]. ring.
Qed.

Lemma mean_row_count (indices : Tensor Z) (values : Tensor Q)
      (N C X Y b x y c : nat) :
  (x < X)%nat -> (y < Y)%nat ->
  (elem (snd (mean_row indices values N C X Y b)) [x; y; c] ==
   inject_Z (Z.of_nat (List.length (writes indices b N x y))))%Q.
Proof.
  intros Hx Hy. unfold mean_row, writes. cbn [snd].
  rewrite fold_scatter_add_step_elem by assumption.
  cbn [elem zeros ones]. rewrite Qsum_ones. ring.
Qed.

(** *** The ['mean'] policy *)


Definition mean_example_indices : Tensor Z :=
  of_list3 0 1 2 2 [[[0; 0]; [0; 0]]].

Definition mean_example_values : Tensor Q :=
  of_list3 0%Q 1 2 1 [[[10%Q]; [20%Q]]].


(** *** Entry checks and unimplemented policies *)

Lemma string_in_duplicates_handlings (s : string) :
  string_in s duplicates_handlings = true <->
  s = "undefined"%string \/ s = "add"%string \/ s = "mean"%string
  \/ s = "any"%string.
Proof.
  unfold string_in, duplicates_handlings. cbn [existsb].
  rewrite !orb_true_iff, !String.eqb_eq. intuition discriminate.
Qed.

Lemma string_in_outside_handlings (s : string) :
  string_in s outside_handlings = true <->
  s = "discard"%string \/ s = "clamp"%string \/ s = "undefined"%string.
Proof.
  unfold string_in, outside_handlings. cbn [existsb].
  rewrite !orb_true_iff, !String.eqb_eq. intuition discriminate.
Qed.

(** C9: [scatter] checks both policy arguments before it looks at indices,
    values or shape: the policy branches run exactly when
    [duplicates_handling] is one of 'undefined', 'add', 'mean', 'any' and
    [outside_handling] is one of 'discard', 'clamp', 'undefined'; with any
    other string the call ends in the entry assertion, whatever the other
    arguments are. *)
Theorem scatter_checks_policies_at_entry (indices : Tensor Z)
        (values : Tensor Q) (shape : list nat)
        (duplicates_handling outside_handling : string) :
  scatter indices values shape duplicates_handling outside_handling =
  (if string_in duplicates_handling duplicates_handlings
      && string_in outside_handling outside_handlings
   then scatter_policy indices values shape duplicates_handling
   else Raise AssertionError) /\
  (string_in duplicates_handling duplicates_handlings = true <->
   duplicates_handling = "undefined"%string \/
   duplicates_handling = "add"%string \/
   duplicates_handling = "mean"%string \/
   duplicates_handling = "any"%string) /\
  (string_in outside_handling outside_handlings = true <->
   outside_handling = "discard"%string \/
   outside_handling = "clamp"%string \/
   outside_handling = "undefined"%string).
Proof.
  split; [|split].
  - unfold scatter.
    destruct (string_in duplicates_handling duplicates_handlings);
      destruct (string_in outside_handling outside_handlings); reflexivity.
  - apply string_in_duplicates_handlings.
  - apply string_in_outside_handlings.
Qed.

Example scatter_rejects_unknown_duplicates_handling :
  scatter mean_example_indices mean_example_values [2; 2]%nat "last" "clamp"
  = Raise AssertionError.
Proof. reflexivity. Qed.

Example scatter_rejects_unknown_outside_handling :
  scatter mean_example_indices mean_example_values [2; 2]%nat "mean" "wrap"
  = Raise AssertionError.
Proof. reflexivity. Qed.

(** Below the entry checks [outside_handling] is never read. *)
Lemma scatter_ignores_outside_handling (indices : Tensor Z)
      (values : Tensor Q) (shape : list nat) (duplicates_handling : string)
      (oh1 oh2 : string) :
  string_in oh1 outside_handlings = true ->
  string_in oh2 outside_handlings = true ->
  scatter indices values shape duplicates_handling oh1 =
  scatter indices values shape duplicates_handling oh2.
Proof.
  intros H1 H2. unfold scatter. now rewrite H1, H2.
Qed.

(** Every policy other than 'mean' ends in [NotImplementedError] once the
    batch sizes combine. *)
Lemma scatter_policy_not_implemented (indices : Tensor Z) (values : Tensor Q)
      (shape : list nat) (duplicates_handling : string) (ib vb n : nat) :
  dim0 indices = Ok ib -> dim0 values = Ok vb -> combined_dim ib vb = Ok n ->
  duplicates_handling <> "mean"%string ->
  scatter_policy indices values shape duplicates_handling
  = Raise NotImplementedError.
Proof.
  intros Hi Hv Hc Hd. unfold scatter_policy.
  rewrite Hi, Hv. cbn [bind]. rewrite Hc. cbn [bind].
  destruct (String.eqb duplicates_handling "add"); [reflexivity|].
  destruct (String.eqb_spec duplicates_handling "mean"); [contradiction|].
  reflexivity.
Qed.

Lemma combined_dim_same (d : nat) : combined_dim d d = Ok d.
Proof. unfold combined_dim. now rewrite Nat.eqb_refl. Qed.

(** An index row outside a 2 x 2 grid: [(5, 0)] carrying the value 7. *)
Definition outside_indices : Tensor Z := of_list3 0 1 1 2 [[[5; 0]]].
Definition outside_values : Tensor Q := of_list3 0%Q 1 1 1 [[[7%Q]]].

(** C3 at the input above: with [duplicates_handling='mean'] and
    [outside_handling='clamp'] the call neither raises nor clamps.  It
    returns the tensor it returns for [outside_handling='undefined'], in which
    the row at [(5, 0)] is lost and cell [(1, 0)] holds 0, whereas scattering
    the clamped indices puts 7 there; and it returns that same tensor for
    [outside_handling='discard']. *)
Theorem scatter_mean_clamp_is_not_applied :
  exists out,
    scatter outside_indices outside_values [2; 2]%nat "mean" "clamp" = Ok out /\
    scatter outside_indices outside_values [2; 2]%nat "mean" "undefined" = Ok out /\
    scatter outside_indices outside_values [2; 2]%nat "mean" "discard" = Ok out /\
    (elem out [0; 1; 0; 0]%nat == 0)%Q /\
    exists clamped,
      scatter (clamp_indices outside_indices [2; 2]%nat) outside_values
              [2; 2]%nat "mean" "undefined" = Ok clamped /\
      (elem clamped [0; 1; 0; 0]%nat == 7)%Q.
Proof.
  eexists. split; [lazy; reflexivity|].
  split; [lazy; reflexivity|].
  split; [lazy; reflexivity|].
  split; [vm_compute; reflexivity|].
  eexists. split; [lazy; reflexivity|].
  vm_compute; reflexivity.
Qed.

(** The unimplemented duplicates policies do fail fast. *)
Example scatter_add_policy_raises :
  scatter outside_indices outside_values [2; 2]%nat "add" "clamp"
  = Raise NotImplementedError.
Proof. reflexivity. Qed.

Example scatter_undefined_policy_raises :
  scatter outside_indices outside_values [2; 2]%nat "undefined" "discard"
  = Raise NotImplementedError.
Proof. reflexivity. Qed.

(** *** [gather] followed by [scatter] *)

(** C6, as the code has it: for every values tensor with at least one axis
    and something to read along the first one, every index tensor with at
    least one axis and every admissible [outside_handling],
    [gather(values, indices)] returns and the call
    [scatter(indices, gathered, shape=values.shape,
    duplicates_handling='any')] that follows raises [NotImplementedError];
    no tensor is returned. *)
Theorem gather_then_scatter_any_raises (values : Tensor Q)
        (indices : Tensor Z) (outside_handling : string) :
  shape values <> [] ->
  hd 0%nat (shape values) <> 0%nat ->
  shape indices <> [] ->
  string_in outside_handling outside_handlings = true ->
  (exists gathered, gather values indices = Ok gathered) /\
  (gathered <- gather values indices ;;
   scatter indices gathered (shape values) "any" outside_handling)
  = Raise NotImplementedError.
Proof.
  intros Hvalues _ Hrank Hoh.
  destruct (shape values) as [|n rest] eqn:Hv; [contradiction|].
  destruct (shape indices) as [|d s] eqn:Hs; [contradiction|].
  unfold gather. rewrite Hv. split; [eexists; reflexivity|].
  cbn [bind]. unfold scatter.
  change (string_in "any" duplicates_handlings) with true.
  rewrite Hoh. cbn [assert bind].
  apply (@scatter_policy_not_implemented _ _ _ _ d d d).
  - unfold dim0. now rewrite Hs.
  - unfold dim0. cbn [shape]. now rewrite Hs.
  - apply combined_dim_same.
  - discriminate.
Qed.

Definition roundtrip_values : Tensor Q :=
  of_list3 0%Q 2 2 1 [[[3%Q]; [4%Q]]; [[5%Q]; [6%Q]]].

Definition roundtrip_indices : Tensor Z := of_list3 0 1 1 2 [[[0; 1]]].

Lemma gather_then_scatter_any_raises_witness :
  (exists gathered, gather roundtrip_values roundtrip_indices = Ok gathered) /\
  (gathered <- gather roundtrip_values roundtrip_indices ;;
   scatter roundtrip_indices gathered (shape roundtrip_values)
           "any" "undefined")
  = Raise NotImplementedError.
Proof.
  apply (@gather_then_scatter_any_raises
           roundtrip_values roundtrip_indices "undefined").
  - discriminate.
  - discriminate.
  - discriminate.
  - reflexivity.
Defined.

(** The round trip of C6 returns no tensor at all on this input, so there is
    nothing that could agree with [values]. *)
Lemma gather_then_scatter_any_returns_nothing :
  ~ exists out,
      (gathered <- gather roundtrip_values roundtrip_indices ;;
       scatter roundtrip_indices gathered (shape roundtrip_values)
               "any" "undefined") = Ok out.
Proof.
  intros [out Hout]. discriminate Hout.
Qed.

(** A values tensor without axes cannot be indexed: the round trip ends in
    [gather]. *)
Example gather_of_scalar :
  gather (mkTensor [] (fun _ => 3%Q)) roundtrip_indices = Raise IndexError.
Proof. reflexivity. Qed.

End Scatter.

(** ** [conjugate_gradient] *)

Module Solver.
Import Array.

(** Modelled from the spec: the result record [SolveResult] of
    [phi.math.backend._optim] (success flag and iteration count) and the solve
    configuration [LinearSolve] of [phi.math] (relative and absolute
    tolerance, iteration cap and the mutable result slot that the solver
    fills in); both are imported by the backend and are not part of the
    sources at hand. *)
Record SolveResult : Type := mkSolveResult {
  success : bool;
  iterations : Z
}.

Record LinearSolve : Type := mkLinearSolve {
  relative_tolerance : Q;
  absolute_tolerance : Q;
  max_iterations : nat;
  result_slot : option SolveResult
}.

Definition set_result (solve_params : LinearSolve) (r : SolveResult)
  : LinearSolve :=
  mkLinearSolve (relative_tolerance solve_params)
                (absolute_tolerance solve_params)
                (max_iterations solve_params)
                (Some r).

(** The operator [A]: a dense array, a Python sequence of arrays, or a
    callable computing the matrix-vector product. *)
Inductive LinearOperator : Type :=
| Dense (a : Tensor Q)
| Sequence (l : list (Tensor Q))
| Callable (f : Tensor Q -> Tensor Q).

(** [isinstance(A, (tuple, list)) or self.ndims(A) == 3], together with
    [self.staticshape(A)[0]] where the test holds. *)
Definition operator_batch (A : LinearOperator) : option nat :=
  match A with
  | Dense a =>
      match shape a with
      | [d; _; _] => Some d
      | _ => None
      end
  | Sequence l => Some (List.length l)
  | Callable _ => None
  end.

(** [t[k]] for [k] inside the first axis. *)
Definition slice {A : Type} (t : Tensor A) (k : nat) : Tensor A :=
  mkTensor (tl (shape t)) (fun ix => elem t (k :: ix)).

Section ConjugateGradient.

(** [jax.scipy.sparse.linalg.cg(A, b, x0, tol, atol, maxiter)]: the engine's
    solver, which returns the final iterate and a second value, or raises on
    arguments it does not accept. *)
Variable Info : Type.
Variable cg : LinearOperator -> Tensor Q -> Tensor Q -> Q -> Q -> nat
              -> result (Tensor Q * Info).

(** [conjugate_gradient] up to the end of its loop: the batch size and the
    list [results]. *)
Definition solve_batches (A : LinearOperator) (y x0 : Tensor Q)
           (solve_params : LinearSolve) : result (list (Tensor Q)) :=
  bs_y <- dim0 y ;;
  bs_x0 <- dim0 x0 ;;
  batch_size <- combined_dim bs_y bs_x0 ;;
  batch_size <- match operator_batch A with
                | Some bs_A => combined_dim batch_size bs_A
                | None => Ok batch_size
                end ;;
  mapM (fun batch =>
          y_ <- index y (Nat.min batch (bs_y - 1)) ;;
          x0_ <- index x0 (Nat.min batch (bs_x0 - 1)) ;;
          r <- cg A y_ x0_ (relative_tolerance solve_params)
                  (absolute_tolerance solve_params)
                  (max_iterations solve_params) ;;
          let '(x, ret_val) := r in
          Ok x)
       (seq 0 batch_size).

(** The call returns its value or exception together with [solve_params],
    whose result slot is written after the loop and before the stacking. *)
Definition conjugate_gradient (A : LinearOperator) (y x0 : Tensor Q)
           (solve_params : LinearSolve) : result (Tensor Q) * LinearSolve :=
  match solve_batches A y x0 solve_params with
  | Raise e => (Raise e, solve_params)
  | Ok results =>
      (stack results, set_result solve_params (mkSolveResult true (-1)))
  end.

End ConjugateGradient.

(** *** An exact conjugate-gradient iteration

    The engine's routine in rational arithmetic, for evaluating the backend
    on concrete systems: the unpreconditioned iteration from [x0], which
    stops once the squared residual is at most
    [max(tol^2 * |b|^2, atol^2)] or after [maxiter] steps.  It accepts a
    square matrix or a callable and raises on anything else; its second
    value carries no information, as jax's placeholder [None]. *)
Definition vec (n : nat) (t : Tensor Q) : list Q :=
  map (fun i => elem t [i]) (seq 0 n).

Definition of_vec (v : list Q) : Tensor Q :=
  mkTensor [List.length v] (fun ix => nth (hd 0%nat ix) v 0%Q).

Definition dot (u v : list Q) : Q :=
  fold_right Qplus 0%Q (map (fun p => (fst p * snd p)%Q) (combine u v)).

Definition axpy (a : Q) (u v : list Q) : list Q :=
  map (fun p => (snd p + a * fst p)%Q) (combine u v).

Definition matvec (n : nat) (a : Tensor Q) (p : list Q) : list Q :=
  map (fun i => dot (map (fun j => elem a [i; j]) (seq 0 n)) p) (seq 0 n).

Definition normalize_matvec (A : LinearOperator) (n : nat)
  : result (list Q -> list Q) :=
  match A with
  | Callable f => Ok (fun p => vec n (f (of_vec p)))
  | Dense a =>
      match shape a with
      | [r; c] => if (r =? c)%nat then Ok (matvec n a) else Raise ValueError
      | _ => Raise ValueError
      end
  | Sequence _ => Raise TypeError
  end.

Fixpoint cg_iterate (A : list Q -> list Q) (atol2 : Q) (fuel : nat)
         (x r p : list Q) (gamma : Q) : list Q :=
  match fuel with
  | O => x
  | S fuel' =>
      if Qle_bool gamma atol2 then x
      else
        let Ap := A p in
        let alpha := (gamma / dot p Ap)%Q in
        let x' := axpy alpha p x in
        let r' := axpy (- alpha) Ap r in
        let gamma' := Qred (dot r' r') in
        let p' := axpy (gamma' / gamma) p r' in
        cg_iterate A atol2 fuel' (map Qred x') (map Qred r') (map Qred p') gamma'
  end.

Definition cg_exact (A : LinearOperator) (b x0 : Tensor Q) (tol atol : Q)
           (maxiter : nat) : result (Tensor Q * unit) :=
  let n := hd 0%nat (shape b) in
  matvec_A <- normalize_matvec A n ;;
  let bv := vec n b in
  let xv := vec n x0 in
  let atol2 := Qmax (tol * tol * dot bv bv) (atol * atol) in
  let r0 := axpy (-(1)) (matvec_A xv) bv in
  Ok (of_vec (cg_iterate matvec_A atol2 maxiter xv r0 r0 (dot r0 r0)), tt).

(** The squared residual [|y - A x|^2] of a candidate solution for a dense
    matrix [a]. *)
Definition residual2 (a : Tensor Q) (y x : Tensor Q) : Q :=
  let n := hd 0%nat (shape y) in
  let r := axpy (-(1)) (matvec n a (vec n x)) (vec n y) in
  dot r r.

(** *** Lemmas *)

Lemma index_slice {A : Type} (t : Tensor A) (d k : nat) (s : list nat) :
  shape t = d :: s -> (k < d)%nat -> index t k = Ok (slice t k).
Proof.
  intros Hs Hk. unfold index, slice. rewrite Hs.
  apply Nat.ltb_lt in Hk. now rewrite Hk.
Qed.

Lemma stack_elem {A : Type} (rs : list (Tensor A)) :
  rs <> [] ->
  exists t,
    stack rs = Ok t /\
    dim0 t = Ok (List.length rs) /\
    forall b r d, (b < List.length rs)%nat ->
      elem t (b :: r) = elem (nth b rs d) r.
Proof.
  intros Hne. destruct rs as [|t0 rs]; [contradiction|].
  eexists. split; [reflexivity|]. split; [reflexivity|].
  intros b r d Hb. cbn [elem]. f_equal. now apply nth_indep.
Qed.

Lemma combined_dim_compatible (a b : nat) :
  (1 <= a)%nat -> (1 <= b)%nat -> a = b \/ a = 1%nat \/ b = 1%nat ->
  combined_dim a b = Ok (Nat.max a b).
Proof.
  intros Ha Hb H. unfold combined_dim.
  destruct (Nat.eqb_spec a b) as [->|Hne].
  - now rewrite Nat.max_id.
  - replace (Nat.min a b =? 1)%nat with true; [reflexivity|].
    symmetry. apply Nat.eqb_eq. lia.
Qed.


Section ConjugateGradientFacts.

Variable Info : Type.
Variable cg : LinearOperator -> Tensor Q -> Tensor Q -> Q -> Q -> nat
              -> result (Tensor Q * Info).

(** Whatever the engine's solver returns, the result slot is either left as
    it was (the call raised before the loop ended) or holds
    [SolveResult(success=True, iterations=-1)]. *)
Lemma conjugate_gradient_result_slot (A : LinearOperator) (y x0 : Tensor Q)
      (solve_params : LinearSolve) :
  snd (conjugate_gradient cg A y x0 solve_params) = solve_params \/
  result_slot (snd (conjugate_gradient cg A y x0 solve_params))
  = Some (mkSolveResult true (-1)).
Proof.
  unfold conjugate_gradient.
  destruct (solve_batches cg A y x0 solve_params); [right|left]; reflexivity.
Qed.


End ConjugateGradientFacts.

(** *** Concrete systems *)

(** The symmetric positive-definite matrix [[4, 1], [1, 3]]. *)
Definition spd_matrix : Tensor Q := of_list2 0%Q 2 2 [[4; 1]; [1; 3]]%Q.

Definition rhs_batch4 : Tensor Q :=
  of_list2 0%Q 4 2 [[1; 2]; [0; 1]; [1; 0]; [5; 4]]%Q.

Definition guess_batch1 : Tensor Q := of_list2 0%Q 1 2 [[0; 0]]%Q.


Definition rhs_batch1 : Tensor Q := of_list2 0%Q 1 2 [[1; 2]]%Q.

(** Tolerance [1e-5], no absolute tolerance, and an iteration cap. *)
Definition solve_with_cap (maxiter : nat) : LinearSolve :=
  mkLinearSolve (1 # 100000) 0 maxiter None.


Example conjugate_gradient_solves_in_two_steps :
  exists out,
    fst (conjugate_gradient cg_exact (Dense spd_matrix) rhs_batch1
                            guess_batch1 (solve_with_cap 2)) = Ok out /\
    (elem out [0; 0]%nat == 1 # 11)%Q /\
    (elem out [0; 1]%nat == 7 # 11)%Q /\
    (residual2 spd_matrix (slice rhs_batch1 0) (slice out 0) == 0)%Q.
Proof.
  eexists. split; [lazy; reflexivity|].
  repeat split; vm_compute; reflexivity.
Qed.

(** C1 on the system [[4, 1], [1, 3]] x = [1, 2] from [x0 = 0] with
    [max_iterations = 1]: the call returns the iterate [(1/4, 1/2)] without
    raising, the squared residual 5/16 of that iterate exceeds the squared
    tolerance [max(tol^2 |y|^2, atol^2)], and the result slot of
    [solve_params] nevertheless holds [success = True] with
    [iterations = -1]. *)
Theorem conjugate_gradient_reports_success_unconverged :
  exists out,
    fst (conjugate_gradient cg_exact (Dense spd_matrix) rhs_batch1
                            guess_batch1 (solve_with_cap 1)) = Ok out /\
    (elem out [0; 0]%nat == 1 # 4)%Q /\
    (elem out [0; 1]%nat == 1 # 2)%Q /\
    (residual2 spd_matrix (slice rhs_batch1 0) (slice out 0) == 5 # 16)%Q /\
    (Qmax ((1 # 100000) * (1 # 100000)
           * dot (vec 2 (slice rhs_batch1 0)) (vec 2 (slice rhs_batch1 0)))
          (0 * 0)
     < residual2 spd_matrix (slice rhs_batch1 0) (slice out 0))%Q /\
    result_slot (snd (conjugate_gradient cg_exact (Dense spd_matrix)
                        rhs_batch1 guess_batch1 (solve_with_cap 1)))
    = Some (mkSolveResult true (-1)).
Proof.
  eexists. split; [lazy; reflexivity|].
  repeat split; vm_compute; reflexivity.
Qed.

End Solver.

(** ** [as_tensor], [dtype] and [cast] *)

Module Cast.

(** Modelled from the spec: [DType] of [phi.math], a kind (bool, int, float
    or complex) with a bit width; the class is imported by the backend and is
    not part of the sources at hand. *)
Inductive Kind : Type := KBool | KInt | KFloat | KComplex.

Record DType : Type := mkDType {
  kind : Kind;
  bits : nat
}.

Definition kind_eqb (k1 k2 : Kind) : bool :=
  match k1, k2 with
  | KBool, KBool | KInt, KInt | KFloat, KFloat | KComplex, KComplex => true
  | _, _ => false
  end.

Definition dtype_eqb (d1 d2 : DType) : bool :=
  kind_eqb (kind d1) (kind d2) && (bits d1 =? bits d2)%nat.

(** Python numbers; [bool] is a subclass of [int]. *)
Inductive PyNumber : Type :=
| PyBool (b : bool)
| PyInt (z : Z)
| PyFloat (q : Q)
| PyComplex (re im : Q).

Section Backend.

(** The engine: its dtypes and arrays, [array.dtype], and [jnp.array(x)] /
    [jnp.array(x, dtype)], which may refuse its argument. *)
Variable NpDType : Type.
Variable Arr : Type.

(** What a caller may pass for [x]: an array of the engine (this covers
    [jnp.bool_]), a NumPy array, a number, a string, a tuple or list, or
    anything else. *)
Inductive Value : Type :=
| JaxArray (a : Arr)
| NumpyArray (a : Arr)
| Number (n : PyNumber)
| Text (s : string)
| Sequence (l : list Value)
| Opaque.

Variable arr_dtype : Arr -> NpDType.
Variable jnp_array : Value -> option NpDType -> result Arr.

(** The dtype tables [to_numpy_dtype] and [from_numpy_dtype] of
    [phi.math.backend], which raise on a dtype they do not list. *)
Variable to_numpy_dtype : DType -> result NpDType.
Variable from_numpy_dtype : NpDType -> result DType.

(** [self.precision] and whether the engine can run with 64-bit floats. *)
Variable precision : nat.
Variable x64_available : bool.

Definition float_type : DType := mkDType KFloat precision.

Definition check_float64 : result unit :=
  if (precision =? 64)%nat then assert x64_available else Ok tt.

Fixpoint is_tensor (x : Value) (only_native : bool) : bool :=
  match x with
  | JaxArray _ => true
  | _ =>
      if only_native then false
      else
        match x with
        | NumpyArray _ => true
        | Number _ | Text _ => true
        | Sequence l => forallb (fun item => is_tensor item false) l
        | _ => false
        end
  end.

Definition cast (x : Value) (dtype : DType) : result Value :=
  let convert :=
    t <- to_numpy_dtype dtype ;;
    a <- jnp_array x (Some t) ;;
    Ok (JaxArray a) in
  match x with
  | JaxArray a =>
      d <- from_numpy_dtype (arr_dtype a) ;;
      if dtype_eqb d dtype then Ok x else convert
  | _ => convert
  end.

(** Modelled from the spec: [Backend.to_float], inherited from the base
    class that is not among the sources; float results are coerced to the
    backend's working precision. *)
Definition to_float (x : Value) : result Value := cast x float_type.

Definition dtype (array : Value) : result DType :=
  match array with
  | Number (PyBool _) | Number (PyInt _) => Ok (mkDType KInt 32)
  | Number (PyFloat _) => Ok (mkDType KFloat 64)
  | Number (PyComplex _ _) => Ok (mkDType KComplex 128)
  | JaxArray a | NumpyArray a => from_numpy_dtype (arr_dtype a)
  | _ => a <- jnp_array array None ;; from_numpy_dtype (arr_dtype a)
  end.

Definition is_number (x : Value) : bool :=
  match x with Number _ => true | _ => false end.

Definition as_tensor (x : Value) (convert_external : bool) : result Value :=
  _ <- check_float64 ;;
  array <- (if is_tensor x convert_external then Ok x
            else a <- jnp_array x None ;; Ok (JaxArray a)) ;;
  if negb (is_number array) then
    d <- dtype array ;;
    if kind_eqb (kind d) KFloat then to_float array else Ok array
  else Ok array.

(** A dtype is supported when [to_numpy_dtype] lists it and the engine,
    asked for it, builds an array of a dtype that [from_numpy_dtype] lists:
    either exactly the requested one, or (jax narrows 64-bit requests while
    [jax_enable_x64] is off) one that a repeated request leaves as it is. *)
Definition supported (d : DType) : Prop :=
  exists t,
    to_numpy_dtype d = Ok t /\
    forall v a,
      jnp_array v (Some t) = Ok a ->
      from_numpy_dtype (arr_dtype a) = Ok d \/
      ((exists d', from_numpy_dtype (arr_dtype a) = Ok d') /\
       jnp_array (JaxArray a) (Some t) = Ok a).

(** *** Casting twice *)

Lemma kind_eqb_refl (k : Kind) : kind_eqb k k = true.
Proof. now destruct k. Qed.

Lemma dtype_eqb_refl (d : DType) : dtype_eqb d d = true.
Proof.
  unfold dtype_eqb. now rewrite kind_eqb_refl, Nat.eqb_refl.
Qed.

Lemma dtype_eqb_eq (d1 d2 : DType) : dtype_eqb d1 d2 = true -> d1 = d2.
Proof.
  destruct d1 as [k1 b1], d2 as [k2 b2]. unfold dtype_eqb. cbn [kind bits].
  intros H. apply andb_prop in H as [Hk Hb].
  apply Nat.eqb_eq in Hb. subst b2.
  destruct k1, k2; try discriminate; reflexivity.
Qed.

(** Casting an engine array to the dtype it already has returns it. *)
Lemma cast_own_dtype (a : Arr) (d : DType) :
  from_numpy_dtype (arr_dtype a) = Ok d ->
  cast (JaxArray a) d = Ok (JaxArray a).
Proof.
  intros Hd. unfold cast. rewrite Hd. cbn [bind].
  now rewrite dtype_eqb_refl.
Qed.

(** A freshly converted array of a supported dtype comes back from the next
    cast to that dtype. *)
Lemma convert_then_cast (v : Value) (d : DType) :
  supported d ->
  (t2 <- (t <- to_numpy_dtype d ;;
          a <- jnp_array v (Some t) ;;
          Ok (JaxArray a)) ;;
   cast t2 d)
  = (t <- to_numpy_dtype d ;; a <- jnp_array v (Some t) ;; Ok (JaxArray a)).
Proof.
  intros (t & Hto & Hbuild). rewrite Hto. cbn [bind].
  destruct (jnp_array v (Some t)) as [a|e] eqn:Ha; [|reflexivity].
  cbn [bind].
  destruct (Hbuild v a Ha) as [Hexact|[[d' Hd'] Hagain]].
  - now apply cast_own_dtype.
  - unfold cast. rewrite Hd'. cbn [bind].
    destruct (dtype_eqb d' d); [reflexivity|].
    rewrite Hto. cbn [bind]. now rewrite Hagain.
Qed.

Lemma cast_cast (x : Value) (d : DType) :
  supported d ->
  (t2 <- cast x d ;; cast t2 d) = cast x d.
Proof.
  intros Hs.
  destruct x as [a|a|n|s|l|];
    try (unfold cast at 1 3; now apply convert_then_cast).
  unfold cast at 1 3.
  destruct (from_numpy_dtype (arr_dtype a)) as [d0|e] eqn:Hd0; [|reflexivity].
  cbn [bind].
  destruct (dtype_eqb d0 d) eqn:Heq.
  - cbn [bind]. apply dtype_eqb_eq in Heq. subst d0.
    now apply cast_own_dtype.
  - now apply convert_then_cast.
Qed.

(** With [convert_external] left at its default, [as_tensor] hands back an
    array of the engine. *)
Lemma as_tensor_native (x t : Value) :
  as_tensor x true = Ok t -> exists a, t = JaxArray a.
Proof.
  unfold as_tensor. destruct check_float64 as [[]|]; [|discriminate].
  cbn [bind].
  assert (Hfin : forall a0,
             (if negb (is_number (JaxArray a0))
              then d <- dtype (JaxArray a0) ;;
                   (if kind_eqb (kind d) KFloat
                    then to_float (JaxArray a0) else Ok (JaxArray a0))
              else Ok (JaxArray a0)) = Ok t ->
             exists a, t = JaxArray a).
  { intros a0. cbn [is_number negb dtype].
    destruct (from_numpy_dtype (arr_dtype a0)) as [d0|e] eqn:Hd0;
      [|discriminate].
    cbn [bind]. destruct (kind_eqb (kind d0) KFloat).
    - unfold to_float, cast. rewrite Hd0. cbn [bind].
      destruct (dtype_eqb d0 float_type).
      + intros [= <-]. now exists a0.
      + destruct (to_numpy_dtype float_type) as [tf|e]; [|discriminate].
        cbn [bind].
        destruct (jnp_array (JaxArray a0) (Some tf)) as [a1|e]; [|discriminate].
        cbn [bind]. intros [= <-]. now exists a1.
    - intros [= <-]. now exists a0. }
  destruct x as [ax|ax|n|s|l|]; cbn [is_tensor bind];
    try (destruct (jnp_array _ None) as [a0|e]; [|discriminate];
         cbn [bind]; apply Hfin).
  apply Hfin.
Qed.

(** C7: for every input [x] and every supported dtype [d], casting the
    tensor [as_tensor(x)] to [d] twice gives what casting it once gives (the
    same tensor, or the same exception where the first cast raises); and
    casting [as_tensor(x)] to the dtype it has returns that tensor itself. *)
Theorem cast_is_idempotent (x : Value) (d : DType) :
  supported d ->
  (t1 <- as_tensor x true ;; t2 <- cast t1 d ;; cast t2 d)
  = (t1 <- as_tensor x true ;; cast t1 d) /\
  (forall t own,
     as_tensor x true = Ok t -> dtype t = Ok own -> cast t own = Ok t).
Proof.
  intros Hs. split.
  - destruct (as_tensor x true) as [t1|e]; [|reflexivity].
    cbn [bind]. now apply cast_cast.
  - intros t own Ht Hown.
    destruct (as_tensor_native _ Ht) as [a ->].
    cbn [dtype] in Hown. now apply cast_own_dtype.
Qed.

End Backend.

Arguments JaxArray {Arr} a.
Arguments NumpyArray {Arr} a.
Arguments Number {Arr} n.
Arguments Text {Arr} s.
Arguments Sequence {Arr} l.
Arguments Opaque {Arr}.

(** *** A reference engine

    Arrays as a dtype with a list of exact values, the dtype tables of
    [phi.math.backend] (float 16/32/64, complex 64/128, int 8/16/32/64 and
    bool), and a conversion that truncates towards zero for integers and maps
    non-zero to one for booleans. *)
Record HostArray : Type := mkHostArray {
  np_dtype : DType;
  data : list Q
}.

Definition listed (d : DType) : bool :=
  match kind d with
  | KBool => (bits d =? 8)%nat
  | KInt =>
      (bits d =? 8)%nat || (bits d =? 16)%nat || (bits d =? 32)%nat
      || (bits d =? 64)%nat
  | KFloat => (bits d =? 16)%nat || (bits d =? 32)%nat || (bits d =? 64)%nat
  | KComplex => (bits d =? 64)%nat || (bits d =? 128)%nat
  end.

Definition table_to_numpy (d : DType) : result DType :=
  if listed d then Ok d else Raise KeyError.

Definition table_from_numpy (t : DType) : result DType :=
  if listed t then Ok t else Raise ValueError.

Definition convert_scalar (k : Kind) (q : Q) : Q :=
  match k with
  | KBool => if Qeq_bool q 0 then 0%Q else 1%Q
  | KInt => inject_Z (Z.quot (Qnum q) (Zpos (Qden q)))
  | KFloat | KComplex => q
  end.

Definition infer_array (v : Value HostArray) : result HostArray :=
  match v with
  | JaxArray a | NumpyArray a => Ok a
  | Number (PyBool b) =>
      Ok (mkHostArray (mkDType KBool 8) [if b then 1%Q else 0%Q])
  | Number (PyInt z) => Ok (mkHostArray (mkDType KInt 32) [inject_Z z])
  | Number (PyFloat q) => Ok (mkHostArray (mkDType KFloat 32) [q])
  | _ => Raise TypeError
  end.

Definition exact_array (v : Value HostArray) (t : option DType)
  : result HostArray :=
  a <- infer_array v ;;
  match t with
  | None => Ok a
  | Some t => Ok (mkHostArray t (map (convert_scalar (kind t)) (data a)))
  end.

(** The same engine with 64-bit floats switched off: a request for 64 bits
    is served with 32. *)
Definition narrow (t : DType) : DType :=
  match kind t with
  | KComplex => if (bits t =? 128)%nat then mkDType KComplex 64 else t
  | k => if (bits t =? 64)%nat then mkDType k 32 else t
  end.

Definition narrow_array (v : Value HostArray) (t : option DType)
  : result HostArray :=
  exact_array v (option_map narrow t).

Definition int32 : DType := mkDType KInt 32.
Definition float64 : DType := mkDType KFloat 64.

Lemma int32_supported :
  supported np_dtype exact_array table_to_numpy table_from_numpy int32.
Proof.
  exists int32. split; [reflexivity|].
  intros v a. unfold exact_array.
  destruct (infer_array v) as [a0|e]; [|discriminate].
  cbn [bind]. intros [= <-]. now left.
Qed.

Lemma float64_supported_when_narrowed :
  supported np_dtype narrow_array table_to_numpy table_from_numpy float64.
Proof.
  exists float64. split; [reflexivity|].
  intros v a. unfold narrow_array, exact_array. cbn [option_map].
  destruct (infer_array v) as [a0|e]; [|discriminate].
  cbn [bind]. intros [= <-]. right. split.
  - now exists (mkDType KFloat 32).
  - cbn. now rewrite map_id.
Qed.

Lemma cast_is_idempotent_witness :
  (t1 <- as_tensor np_dtype exact_array table_to_numpy table_from_numpy
                   32 false (Number (PyFloat (5 # 2))) true ;;
   t2 <- cast np_dtype exact_array table_to_numpy table_from_numpy t1 int32 ;;
   cast np_dtype exact_array table_to_numpy table_from_numpy t2 int32)
  = (t1 <- as_tensor np_dtype exact_array table_to_numpy table_from_numpy
                     32 false (Number (PyFloat (5 # 2))) true ;;
     cast np_dtype exact_array table_to_numpy table_from_numpy t1 int32) /\
  (forall t own,
     as_tensor np_dtype exact_array table_to_numpy table_from_numpy
               32 false (Number (PyFloat (5 # 2))) true = Ok t ->
     dtype np_dtype exact_array table_from_numpy t = Ok own ->
     cast np_dtype exact_array table_to_numpy table_from_numpy t own = Ok t).
Proof.
  exact (@cast_is_idempotent DType HostArray np_dtype exact_array
           table_to_numpy table_from_numpy 32 false
           (Number (PyFloat (5 # 2))) int32 int32_supported).
Defined.

Example as_tensor_of_float :
  as_tensor np_dtype exact_array table_to_numpy table_from_numpy
            32 false (Number (PyFloat (5 # 2))) true
  = Ok (JaxArray (mkHostArray (mkDType KFloat 32) [5 # 2])).
Proof. reflexivity. Qed.

Example cast_float_to_int32 :
  cast np_dtype exact_array table_to_numpy table_from_numpy
       (JaxArray (mkHostArray (mkDType KFloat 32) [5 # 2])) int32
  = Ok (JaxArray (mkHostArray int32 [2%Q])).
Proof. reflexivity. Qed.

Example cast_int32_again :
  cast np_dtype exact_array table_to_numpy table_from_numpy
       (JaxArray (mkHostArray int32 [2%Q])) int32
  = Ok (JaxArray (mkHostArray int32 [2%Q])).
Proof. reflexivity. Qed.

Example cast_float64_while_narrowed :
  cast np_dtype narrow_array table_to_numpy table_from_numpy
       (JaxArray (mkHostArray (mkDType KFloat 32) [5 # 2])) float64
  = Ok (JaxArray (mkHostArray (mkDType KFloat 32) [5 # 2])).
Proof. reflexivity. Qed.

End Cast.

(** ** [functional_gradient] *)

Module Gradient.

(** A function handed to the engine is traced once: what the engine sees is
    the expression of each output over the positional arguments. *)
Inductive Expr : Type :=
| Arg (i : nat)
| Const (q : Q)
| Add (a b : Expr)
| Mul (a b : Expr)
| Pow (a : Expr) (n : nat).

Fixpoint eval (args : list Q) (e : Expr) : Q :=
  match e with
  | Arg i => nth i args 0%Q
  | Const q => q
  | Add a b => (eval args a + eval args b)%Q
  | Mul a b => (eval args a * eval args b)%Q
  | Pow a n => (eval args a ^ Z.of_nat n)%Q
  end.

(** Reverse-mode differentiation of the engine, as the derivative of the
    traced expression with respect to argument [i]. *)
Fixpoint diff (i : nat) (e : Expr) : Expr :=
  match e with
  | Arg j => Const (if (i =? j)%nat then 1%Q else 0%Q)
  | Const _ => Const 0%Q
  | Add a b => Add (diff i a) (diff i b)
  | Mul a b => Add (Mul (diff i a) b) (Mul a (diff i b))
  | Pow a n =>
      match n with
      | O => Const 0%Q
      | S m =>
          Mul (Mul (Const (inject_Z (Z.of_nat n))) (Pow a m)) (diff i a)
      end
  end.

(** What a call of [f] returns: a single value, or a tuple or list of values. *)
Inductive Returned : Type :=
| Value (e : Expr)
| Seq (es : list Expr).

(** [aux_f]: [(result[0], result[1:])] for a tuple or list of more than one
    element, [(result, None)] otherwise. *)
Definition aux_f (f : Returned) : Returned * option (list Expr) :=
  match f with
  | Seq (e :: (_ :: _) as rest) => (Value e, Some rest)
  | _ => (f, None)
  end.

Definition argnums_ok (argnums : list nat) (args : list Q) : bool :=
  forallb (fun i => (i <? List.length args)%nat) argnums.

(** [jax.value_and_grad(fun, argnums, has_aux=True)] applied to the
    arguments, for a tuple [argnums]: [((value, aux), grads)].  Before it
    calls the function the engine takes the largest entry of [argnums],
    which raises [ValueError] for an empty tuple, and raises [TypeError]
    when that entry names a missing argument.  It differentiates
    scalar-valued functions only and raises [TypeError] on any other first
    output. *)
Definition value_and_grad (fn : Returned * option (list Expr))
           (argnums : list nat) (args : list Q)
  : result ((Q * option (list Q)) * list Q) :=
  match argnums with
  | [] => Raise ValueError
  | _ :: _ =>
      if argnums_ok argnums args then
        match fst fn with
        | Value e =>
            Ok ((eval args e, option_map (map (eval args)) (snd fn)),
                map (fun i => eval args (diff i e)) argnums)
        | Seq _ => Raise TypeError
        end
      else Raise TypeError
  end.

(** [jax.grad(fun, argnums, has_aux=False)] applied to the arguments, with
    the same checks of [argnums] before the function is called. *)
Definition grad (fn : result Expr) (argnums : list nat) (args : list Q)
  : result (list Q) :=
  match argnums with
  | [] => Raise ValueError
  | _ :: _ =>
      if argnums_ok argnums args then
        e <- fn ;; Ok (map (fun i => eval args (diff i e)) argnums)
      else Raise TypeError
  end.

(** [nonaux_f]: [result[0]] for a tuple or list, [result] otherwise. *)
Definition nonaux_f (f : Returned) : result Expr :=
  match f with
  | Value e => Ok e
  | Seq (e :: _) => Ok e
  | Seq [] => Raise IndexError
  end.

Definition unwrap_outputs (f : Returned) (wrt : list nat) (args : list Q)
  : result (list Q) :=
  r <- value_and_grad (aux_f f) wrt args ;;
  let '((loss, aux), grads) := r in
  match aux with
  | Some aux => Ok (loss :: aux ++ grads)
  | None => Ok (loss :: grads)
  end.

(** The callable that [functional_gradient(f, wrt, get_output)] returns,
    applied to [args]. *)
Definition functional_gradient (f : Returned) (wrt : list nat)
           (get_output : bool) (args : list Q) : result (list Q) :=
  if get_output then unwrap_outputs f wrt args
  else grad (nonaux_f f) wrt args.

(** [f(x) = x**2], alone and as a tuple of one element. *)
Definition square : Expr := Pow (Arg 0) 2.

(** *** Output followed by gradients *)

Lemma diff_square (x : Q) : (eval [x] (diff 0 square) == 2 * x)%Q.
Proof. cbn. ring. Qed.

(** For [f] returning a single value, or a tuple or list with at least one
    auxiliary output, the wrapped callable returns the primary output, then
    the auxiliary outputs as [f] computed them, then the gradients of the
    primary output with respect to the arguments in [wrt]. *)
Lemma functional_gradient_output_then_gradients (e : Expr) (aux : list Expr)
      (wrt : list nat) (args : list Q) :
  wrt <> [] ->
  argnums_ok wrt args = true ->
  functional_gradient (Value e) wrt true args
  = Ok (eval args e :: map (fun i => eval args (diff i e)) wrt) /\
  (aux <> [] ->
   functional_gradient (Seq (e :: aux)) wrt true args
   = Ok (eval args e :: map (eval args) aux
           ++ map (fun i => eval args (diff i e)) wrt)).
Proof.
  intros Hwrt Hok. destruct wrt as [|w wrt]; [contradiction|]. split.
  - unfold functional_gradient, unwrap_outputs, value_and_grad.
    rewrite Hok. reflexivity.
  - intros Hne. destruct aux as [|a aux]; [contradiction|].
    unfold functional_gradient, unwrap_outputs, value_and_grad.
    rewrite Hok. reflexivity.
Qed.

(** An empty [wrt] is refused in both modes, whatever [f] returns. *)
Lemma functional_gradient_of_empty_wrt (f : Returned) (get_output : bool)
      (args : list Q) :
  functional_gradient f [] get_output args = Raise ValueError.
Proof. now destruct get_output. Qed.

Example functional_gradient_square :
  functional_gradient (Value square) [0%nat] true [2%Q] = Ok [4%Q; 4%Q].
Proof. reflexivity. Qed.

Example functional_gradient_with_auxiliary :
  functional_gradient (Seq [square; Add (Arg 0) (Const 1); Const 7])
                      [0%nat] true [2%Q]
  = Ok [4%Q; 3%Q; 7%Q; 4%Q].
Proof. reflexivity. Qed.

(** C5 at [f(x) = (x**2,)], [wrt = (0,)], [x = 2.0]: with
    [get_output=True] the tuple of one element reaches the engine as the
    value to differentiate and the call raises [TypeError] instead of
    returning [(4.0, 4.0)]; with [get_output=False] the same [f] yields the
    gradient [(4.0,)], and [f(x) = x**2] itself yields [(4.0, 4.0)]. *)
Theorem functional_gradient_one_element_tuple :
  functional_gradient (Seq [square]) [0%nat] true [2%Q] = Raise TypeError /\
  functional_gradient (Seq [square]) [0%nat] false [2%Q] = Ok [4%Q] /\
  functional_gradient (Value square) [0%nat] true [2%Q] = Ok [4%Q; 4%Q].
Proof. repeat split. Qed.

End Gradient.

(** ** Random sampling *)

Module Random.

Inductive Sampler : Type := Uniform | Normal.

Record Call : Type := mkCall {
  sampler : Sampler;
  sample_shape : list nat
}.

Section PRNG.

(** [jax.random]: keys, [PRNGKey(seed)] (which fails with [RuntimeError]
    when no device is at hand, rendered as [None]), [split], and the two
    samplers, which take the key, the shape and the float precision. *)
Variable Key : Type.
Variable Sample : Type.
Variable PRNGKey : Z -> option Key.
Variable split : Key -> Key * Key.
Variable uniform : Key -> list nat -> nat -> Sample.
Variable normal : Key -> list nat -> nat -> Sample.

Variable precision : nat.
Variable x64_available : bool.

(** The backend object; [rnd_key] is [None] after a failed construction. *)
Record JaxBackend : Type := mkJaxBackend {
  rnd_key : option Key
}.

Definition init : JaxBackend := mkJaxBackend (PRNGKey 0).

Definition draw (s : Sampler) (subkey : Key) (shape : list nat) : Sample :=
  match s with
  | Uniform => uniform subkey shape precision
  | Normal => normal subkey shape precision
  end.

(** [random_uniform] and [random_normal] differ in the sampler only. *)
Definition random_sample (s : Sampler) (self : JaxBackend) (shape : list nat)
  : result Sample * JaxBackend :=
  match Cast.check_float64 precision x64_available with
  | Raise e => (Raise e, self)
  | Ok _ =>
      match rnd_key self with
      | None => (Raise TypeError, self)
      | Some key =>
          let '(new_key, subkey) := split key in
          (Ok (draw s subkey shape), mkJaxBackend (Some new_key))
      end
  end.

Definition random_uniform := random_sample Uniform.
Definition random_normal := random_sample Normal.

Definition call (c : Call) (self : JaxBackend) : result Sample * JaxBackend :=
  match sampler c with
  | Uniform => random_uniform self (sample_shape c)
  | Normal => random_normal self (sample_shape c)
  end.

(** A sequence of sampling calls on one backend. *)
Fixpoint run_calls (calls : list Call) (self : JaxBackend)
  : list (result Sample) * JaxBackend :=
  match calls with
  | [] => ([], self)
  | c :: calls' =>
      let '(r, self') := call c self in
      let '(rs, self'') := run_calls calls' self' in
      (r :: rs, self'')
  end.

(** The stored key after [n] calls and the subkey of call number [i]. *)
Fixpoint key_after (n : nat) (k : Key) : Key :=
  match n with
  | O => k
  | S n' => fst (split (key_after n' k))
  end.

Definition subkey_at (i : nat) (k : Key) : Key :=
  snd (split (key_after i k)).

(** *** Determinism and key advance *)

Lemma call_with_key (c : Call) (k : Key) :
  Cast.check_float64 precision x64_available = Ok tt ->
  call c (mkJaxBackend (Some k))
  = (Ok (draw (sampler c) (snd (split k)) (sample_shape c)),
     mkJaxBackend (Some (fst (split k)))).
Proof.
  intros Hcheck. unfold call, random_uniform, random_normal, random_sample.
  destruct (sampler c); rewrite Hcheck; cbn [rnd_key];
    now destruct (split k).
Qed.

Lemma run_calls_from (k : Key) (calls : list Call) :
  Cast.check_float64 precision x64_available = Ok tt ->
  forall s : nat,
    run_calls calls (mkJaxBackend (Some (key_after s k)))
    = (map (fun p => Ok (draw (sampler (snd p)) (subkey_at (fst p) k)
                              (sample_shape (snd p))))
           (combine (seq s (List.length calls)) calls),
       mkJaxBackend (Some (key_after (s + List.length calls) k))).
Proof.
  intros Hcheck. induction calls as [|c calls IH]; intros s.
  - cbn. now rewrite Nat.add_0_r.
  - cbn [run_calls]. rewrite call_with_key by assumption.
    change (fst (split (key_after s k))) with (key_after (S s) k).
    rewrite IH. cbn [List.length seq combine map fst snd].
    replace (s + S (List.length calls))%nat
      with (S s + List.length calls)%nat by lia.
    reflexivity.
Qed.

(** C10: a backend is constructed with the key of seed 0.  When that key
    exists and the precision check passes, a sequence of [random_uniform] /
    [random_normal] calls on a fresh backend returns, for call number [i],
    the sample drawn from the second half of the split of the key stored
    after [i] calls, and leaves the first half of that split as the stored
    key: the samples are a function of the call sequence alone, so two fresh
    backends given the same calls return equal samples.  Provided [split]
    never returns its argument as the new key and sends different keys to
    different subkeys, consecutive calls draw from different subkeys. *)
Theorem random_sampling_is_deterministic (k0 : Key) (calls : list Call) :
  PRNGKey 0 = Some k0 ->
  Cast.check_float64 precision x64_available = Ok tt ->
  rnd_key init = Some k0 /\
  fst (run_calls calls init)
  = map (fun p => Ok (draw (sampler (snd p)) (subkey_at (fst p) k0)
                           (sample_shape (snd p))))
        (combine (seq 0 (List.length calls)) calls) /\
  rnd_key (snd (run_calls calls init))
  = Some (key_after (List.length calls) k0) /\
  (forall b1 b2 : JaxBackend,
     b1 = init -> b2 = init ->
     fst (run_calls calls b1) = fst (run_calls calls b2)) /\
  ((forall k, fst (split k) <> k) ->
   (forall k k', snd (split k) = snd (split k') -> k = k') ->
   forall i, subkey_at i k0 <> subkey_at (S i) k0).
Proof.
  intros Hkey Hcheck.
  assert (Hinit : init = mkJaxBackend (Some (key_after 0 k0)))
    by (unfold init; now rewrite Hkey).
  split; [now rewrite Hinit|].
  split; [rewrite Hinit, run_calls_from by assumption; reflexivity|].
  split; [rewrite Hinit, run_calls_from by assumption; reflexivity|].
  split; [now intros b1 b2 -> ->|].
  intros Hfresh Hinj i Heq. unfold subkey_at in Heq.
  apply Hinj in Heq. cbn [key_after] in Heq.
  symmetry in Heq. now apply Hfresh in Heq.
Qed.

End PRNG.

(** *** A reference generator

    Keys are the nodes of the infinite binary tree: [split] sends a node to
    its two children, and the key of seed [s] is node [s + 1].  A sample
    records the subkey, the shape and the precision it was drawn with. *)
Definition tree_key (seed : Z) : option positive :=
  if 0 <=? seed then Some (Z.to_pos (seed + 1)) else None.

Definition tree_split (k : positive) : positive * positive :=
  (xO k, xI k).

Definition tagged (s : Sampler) (k : positive) (shape : list nat)
           (precision : nat) : Sampler * positive * list nat * nat :=
  (s, k, shape, precision).

Definition two_calls : list Call :=
  [mkCall Uniform [2; 3]%nat; mkCall Normal [4]%nat].

Lemma random_sampling_is_deterministic_witness :
  rnd_key (init tree_key) = Some 1%positive /\
  fst (run_calls tree_split (tagged Uniform) (tagged Normal) 32 false
                 two_calls (init tree_key))
  = [Ok (Uniform, 3%positive, [2; 3]%nat, 32%nat);
     Ok (Normal, 5%positive, [4]%nat, 32%nat)] /\
  rnd_key (snd (run_calls tree_split (tagged Uniform) (tagged Normal) 32 false
                          two_calls (init tree_key)))
  = Some 4%positive /\
  subkey_at tree_split 0 1%positive <> subkey_at tree_split 1 1%positive.
Proof.
  destruct (@random_sampling_is_deterministic
              positive _ tree_key tree_split (tagged Uniform) (tagged Normal)
              32 false 1%positive two_calls eq_refl eq_refl)
    as (Hk & Hsamples & Hstored & _ & Hdistinct).
  split; [exact Hk|]. split; [exact Hsamples|]. split; [exact Hstored|].
  apply Hdistinct.
  - intros k H. cbn in H. lia.
  - intros k k' H. cbn in H. now injection H.
Defined.

End Random.

(** * Further properties of the backend *)

(** ** [while_loop]: the iteration cap *)

Module LoopFacts.
Import WhileLoop.

Section Cap.
Variable V : Type.
Variable cond : V -> bool.
Variable body : V -> V.

(** The cap is compared with the counter by equality, so only their distance
    matters. *)
Lemma while_loop_from_shift (d : Z) (fuel : nat) :
  forall (v : V) (i k : Z),
    while_loop_from cond body fuel v (i + d) (Some (k + d))
    = while_loop_from cond body fuel v i (Some k).
Proof.
  induction fuel as [|fuel IH]; intros v i k; cbn [while_loop_from];
    [reflexivity|].
  destruct (cond v); [|reflexivity].
  replace (i + d =? k + d) with (i =? k)
    by (destruct (Z.eqb_spec i k), (Z.eqb_spec (i + d) (k + d)); lia).
  destruct (i =? k); [reflexivity|].
  replace (i + d + 1) with (i + 1 + d) by lia. apply IH.
Qed.

Lemma while_loop_from_past_cap (fuel : nat) :
  forall (v : V) (i k : Z),
    k < i ->
    while_loop_from cond body fuel v i (Some k)
    = while_loop_from cond body fuel v i None.
Proof.
  induction fuel as [|fuel IH]; intros v i k Hk; cbn [while_loop_from];
    [reflexivity|].
  destruct (cond v); [|reflexivity].
  replace (i =? k) with false by (symmetry; apply Z.eqb_neq; lia).
  apply IH. lia.
Qed.

(** A negative [maximum_iterations] is never met by the counter: the loop
    runs as if no cap had been given. *)
Theorem while_loop_negative_cap_is_no_cap (fuel : nat) (v : V) (k : Z) :
  k < 0 ->
  while_loop cond body fuel v (Some k) = while_loop cond body fuel v None.
Proof.
  intros Hk. unfold while_loop. now apply while_loop_from_past_cap.
Qed.

(** Running with a cap of [a] iterations and then, from the loop variables
    reached, with a cap of [b] gives what one run with the cap [a + b]
    gives. *)
Theorem while_loop_caps_add (a b : nat) :
  forall (v : V) (f1 f2 f3 : nat),
    (a + b < f1)%nat -> (a < f2)%nat -> (b < f3)%nat ->
    while_loop cond body f1 v (Some (Z.of_nat (a + b)))
    = match while_loop cond body f2 v (Some (Z.of_nat a)) with
      | Some v' => while_loop cond body f3 v' (Some (Z.of_nat b))
      | None => None
      end.
Proof.
  unfold while_loop.
  induction a as [|a IH]; intros v f1 f2 f3 H1 H2 H3.
  - destruct f2 as [|f2]; [lia|]. cbn [while_loop_from Nat.add].
    change (0 =? Z.of_nat 0) with true.
    destruct (cond v) eqn:Hc.
    + assert (Hd : Z.of_nat b - 0 = Z.of_nat b) by lia.
      destruct (@while_loop_from_capped V cond body b v 0 (Z.of_nat b) Hd)
        as (n & Hn & _ & _ & Hrun).
      rewrite (Hrun f1), (Hrun f3) by lia. reflexivity.
    + destruct f1 as [|f1]; [lia|]. destruct f3 as [|f3]; [lia|].
      cbn [while_loop_from]. now rewrite Hc.
  - destruct f1 as [|f1]; [lia|]. destruct f2 as [|f2]; [lia|].
    cbn [while_loop_from].
    destruct (cond v) eqn:Hc.
    + replace (0 =? Z.of_nat (S a + b)) with false
        by (symmetry; apply Z.eqb_neq; lia).
      replace (0 =? Z.of_nat (S a)) with false
        by (symmetry; apply Z.eqb_neq; lia).
      replace (Z.of_nat (S a + b)) with (Z.of_nat (a + b) + 1) by lia.
      replace (Z.of_nat (S a)) with (Z.of_nat a + 1) by lia.
      rewrite !while_loop_from_shift.
      apply IH; lia.
    + destruct f3 as [|f3]; [lia|]. cbn [while_loop_from]. now rewrite Hc.
Qed.

End Cap.

Lemma while_loop_negative_cap_is_no_cap_witness :
  while_loop count_cond count_body 10 0 (Some (-1))
  = while_loop count_cond count_body 10 0 None.
Proof.
  apply (@while_loop_negative_cap_is_no_cap Z count_cond count_body 10 0 (-1)).
  lia.
Defined.

Lemma while_loop_caps_add_witness :
  while_loop count_cond count_body 9 0 (Some (Z.of_nat (2 + 1)))
  = match while_loop count_cond count_body 5 0 (Some (Z.of_nat 2)) with
    | Some v' => while_loop count_cond count_body 4 v' (Some (Z.of_nat 1))
    | None => None
    end.
Proof.
  apply (@while_loop_caps_add Z count_cond count_body 2 1 0 9 5 4); lia.
Defined.

End LoopFacts.

(** ** [scatter] with ['mean']: what a cell holds *)

Module ScatterFacts.
Import Array Scatter.

Lemma scatter_mean_cells (indices : Tensor Z) (values : Tensor Q)
      (B N C X Y : nat) (outside_handling : string) :
  shape indices = [B; N; 2%nat] ->
  shape values = [B; N; C] ->
  (1 <= B)%nat ->
  string_in outside_handling outside_handlings = true ->
  exists out,
    scatter indices values [X; Y] "mean" outside_handling = Ok out /\
    forall b x y c, (b < B)%nat -> (x < X)%nat -> (y < Y)%nat ->
      (elem out [b; x; y; c] ==
       Qsum (map (fun i => elem values [b; i; c]) (writes indices b N x y))
       / Qmax 1 (inject_Z (Z.of_nat (List.length (writes indices b N x y)))))%Q.
Proof.
  intros Hi Hv HB Hoh.
  destruct (stack_map_seq (fun b => fst (mean_row indices values N C X Y b)) HB)
    as (sums & Hsums & _ & Hselem).
  destruct (stack_map_seq (fun b => snd (mean_row indices values N C X Y b)) HB)
    as (counts & Hcounts & _ & Hcelem).
  exists (divide sums (maximum 1 counts)). split.
  - unfold scatter.
    change (string_in "mean" duplicates_handlings) with true.
    rewrite Hoh. cbn [assert bind].
    unfold scatter_policy, dim0, last_dim. rewrite Hi, Hv. cbn [bind last].
    unfold combined_dim. rewrite Nat.eqb_refl. cbn [bind].
    change (String.eqb "mean" "add") with false.
    change (String.eqb "mean" "mean") with true. cbv iota.
    rewrite <- Hv.
    rewrite (@scatter_policy_mean_rows indices values B N C X Y Hi Hv).
    cbn [bind]. rewrite !map_map, Hsums, Hcounts. reflexivity.
  - intros b x y c Hb Hx Hy. cbn [divide maximum elem].
    rewrite (Hselem b [x; y; c] Hb), (Hcelem b [x; y; c] Hb).
    rewrite mean_row_sum, mean_row_count by assumption.
    reflexivity.
Qed.

Lemma Qsum_ext (A : Type) (f g : A -> Q) (l : list A) :
  (forall a, In a l -> (f a == g a)%Q) ->
  (Qsum (map f l) == Qsum (map g l))%Q.
Proof.
  induction l as [|a l IH]; intros H; cbn [map Qsum]; [reflexivity|].
  rewrite IH by (intros; apply H; now right).
  now rewrite (H a (or_introl eq_refl)).
Qed.

(** A cell that receives exactly one write holds the value written: the
    sum is that value and the count is one. *)
Theorem scatter_mean_of_single_write (indices : Tensor Z) (values : Tensor Q)
        (B N C X Y : nat) (outside_handling : string) (b x y c i : nat) :
  shape indices = [B; N; 2%nat] ->
  shape values = [B; N; C] ->
  string_in outside_handling outside_handlings = true ->
  (b < B)%nat -> (x < X)%nat -> (y < Y)%nat ->
  writes indices b N x y = [i] ->
  exists out,
    scatter indices values [X; Y] "mean" outside_handling = Ok out /\
    (elem out [b; x; y; c] == elem values [b; i; c])%Q.
Proof.
  intros Hi Hv Hoh Hb Hx Hy Hone.
  destruct (@scatter_mean_cells indices values B N C X Y outside_handling
              Hi Hv ltac:(lia) Hoh) as (out & Hout & Hcells).
  exists out. split; [exact Hout|].
  rewrite (Hcells b x y c Hb Hx Hy), Hone.
  cbn [map Qsum List.length].
  change (Qmax 1 (inject_Z (Z.of_nat 1))) with 1%Q.
  field.
Qed.

(** Whether an index row lies inside an [X] by [Y] grid. *)
Definition row_inside (indices : Tensor Z) (X Y b i : nat) : Prop :=
  0 <= elem indices [b; i; 0%nat] < Z.of_nat X /\
  0 <= elem indices [b; i; 1%nat] < Z.of_nat Y.

(** The values of rows whose index lies outside the grid are never used:
    two value tensors that agree on the rows inside the grid scatter to
    tensors that agree in every cell. *)
Theorem scatter_mean_ignores_outside_rows (indices : Tensor Z)
        (values values' : Tensor Q) (B N C X Y : nat)
        (outside_handling : string) :
  shape indices = [B; N; 2%nat] ->
  shape values = [B; N; C] ->
  shape values' = [B; N; C] ->
  (1 <= B)%nat ->
  string_in outside_handling outside_handlings = true ->
  (forall b i c, (b < B)%nat -> (i < N)%nat -> row_inside indices X Y b i ->
     (elem values [b; i; c] == elem values' [b; i; c])%Q) ->
  exists out out',
    scatter indices values [X; Y] "mean" outside_handling = Ok out /\
    scatter indices values' [X; Y] "mean" outside_handling = Ok out' /\
    forall b x y c, (b < B)%nat -> (x < X)%nat -> (y < Y)%nat ->
      (elem out [b; x; y; c] == elem out' [b; x; y; c])%Q.
Proof.
  intros Hi Hv Hv' HB Hoh Hagree.
  destruct (@scatter_mean_cells indices values B N C X Y outside_handling
              Hi Hv HB Hoh) as (out & Hout & Hcells).
  destruct (@scatter_mean_cells indices values' B N C X Y outside_handling
              Hi Hv' HB Hoh) as (out' & Hout' & Hcells').
  exists out, out'. split; [exact Hout|]. split; [exact Hout'|].
  intros b x y c Hb Hx Hy.
  rewrite (Hcells b x y c Hb Hx Hy), (Hcells' b x y c Hb Hx Hy).
  apply Qdiv_comp; [|reflexivity].
  apply Qsum_ext. intros i Hin.
  unfold writes in Hin. apply filter_In in Hin as [Hseq Hhit].
  apply in_seq in Hseq. apply andb_prop in Hhit as [H0 H1].
  apply Z.eqb_eq in H0, H1.
  apply Hagree; [assumption|lia|].
  unfold row_inside. rewrite <- H0, <- H1. lia.
Qed.

Definition once_indices : Tensor Z := of_list3 0 1 2 2 [[[0; 1]; [1; 1]]].
Definition once_values : Tensor Q := of_list3 0%Q 1 2 1 [[[3%Q]; [4%Q]]].

Lemma scatter_mean_of_single_write_witness :
  exists out,
    scatter once_indices once_values [2; 2]%nat "mean" "undefined" = Ok out /\
    (elem out [0; 1; 1; 0]%nat == elem once_values [0; 1; 0]%nat)%Q.
Proof.
  apply (@scatter_mean_of_single_write once_indices once_values
           1 2 1 2 2 "undefined" 0 1 1 0 1 eq_refl eq_refl eq_refl).
  - lia.
  - lia.
  - lia.
  - reflexivity.
Defined.

Definition other_outside_values : Tensor Q := of_list3 0%Q 1 1 1 [[[9%Q]]].

Lemma scatter_mean_ignores_outside_rows_witness :
  exists out out',
    scatter outside_indices outside_values [2; 2]%nat "mean" "clamp" = Ok out /\
    scatter outside_indices other_outside_values [2; 2]%nat "mean" "clamp"
    = Ok out' /\
    forall b x y c, (b < 1)%nat -> (x < 2)%nat -> (y < 2)%nat ->
      (elem out [b; x; y; c] == elem out' [b; x; y; c])%Q.
Proof.
  apply (@scatter_mean_ignores_outside_rows outside_indices outside_values
           other_outside_values 1 1 1 2 2 "clamp"
           eq_refl eq_refl eq_refl (le_n 1) eq_refl).
  intros b i c Hb Hi [[_ H] _].
  destruct b as [|b]; [|lia]. destruct i as [|i]; [|lia].
  cbn in H. lia.
Defined.

End ScatterFacts.

(** ** Indexed reads: [gather], [batched_gather_nd] and [clamp] *)

Module Indexing.
Import Array Scatter.

(** Modelled from the spec: [Backend.unstack(tensor, -1)] of the base class,
    which is not among the sources: the slices of a tensor along its last
    axis, as a tuple. *)
Definition unstack_last {A : Type} (t : Tensor A) : list (Tensor A) :=
  map (fun k => mkTensor (removelast (shape t))
                  (fun pos => elem t (pos ++ [k])))
      (seq 0 (last (shape t) 0%nat)).

(** [values[(i_1, ..., i_d)]] for index arrays of one common shape: the
    arrays index the first [d] axes together; negative indices count from
    the end and the engine clamps what is still outside an axis. *)
Definition index_tuple {A : Type} (values : Tensor A)
           (indices : list (Tensor Z)) : Tensor A :=
  let d := List.length indices in
  let s := match indices with ix :: _ => shape ix | [] => [] end in
  let r := List.length s in
  mkTensor (s ++ skipn d (shape values))
    (fun pos =>
       elem values
         (map (fun p => normalize_index (fst p) (elem (snd p) (firstn r pos)))
              (combine (shape values) indices)
          ++ skipn r pos)).

Definition ndims {A : Type} (t : Tensor A) : nat := List.length (shape t).

Definition batched_gather_nd {A : Type} (values : Tensor A)
           (indices : Tensor Z) : result (Tensor A) :=
  d <- last_dim indices ;;
  _ <- assert (Z.of_nat d =? Z.of_nat (ndims values) - 2) ;;
  vb <- dim0 values ;;
  ib <- dim0 indices ;;
  batch_size <- combined_dim vb ib ;;
  results <- mapM (fun b =>
                     b_values <- index values (Nat.min b (vb - 1)) ;;
                     indices_b <- index indices (Nat.min b (ib - 1)) ;;
                     let b_indices := unstack_last indices_b in
                     Ok (index_tuple b_values b_indices))
                  (seq 0 batch_size) ;;
  stack results.

(** An integer dtype of the engine, by signedness and bit width, and the
    conversion of an integer to it, which wraps around. *)
Record IntType : Type := mkIntType {
  signed : bool;
  width : nat
}.

Definition modulus (t : IntType) : Z := 2 ^ Z.of_nat (width t).

Definition lowest (t : IntType) : Z :=
  if signed t then - (modulus t / 2) else 0.

Definition wrap (t : IntType) (z : Z) : Z :=
  (z - lowest t) mod modulus t + lowest t.

Definition fits (t : IntType) (z : Z) : Prop :=
  lowest t <= z < lowest t + modulus t.

Definition int8 : IntType := mkIntType true 8.
Definition int32 : IntType := mkIntType true 32.

(** The module-level [clamp(coordinates, shape)]: component [i] of every
    coordinate vector is moved into [[0, shape[i] - 1]], one component after
    the other, by assignment into [coordinates] itself.  The engine computes
    [maximum(0, minimum(shape[i] - 1, column))] in the integer dtype [t] it
    gives the column: the column and the Python integer [shape[i] - 1] are
    both converted to [t], the integer wrapping around when it does not fit.
    A NumPy array takes the assignment; an array of the engine is immutable
    and the first assignment raises [TypeError]. *)
Definition clamp_component (t : IntType) (bound : Z) (v : Z) : Z :=
  Z.max 0 (Z.min (wrap t (bound - 1)) (wrap t v)).

Definition set_component (t : IntType) (shape : list Z)
           (coordinates : Tensor Z) (i : nat) : Tensor Z :=
  mkTensor (Array.shape coordinates)
    (fun pos =>
       if (last pos 0%nat =? i)%nat
       then clamp_component t (nth i shape 0) (elem coordinates pos)
       else elem coordinates pos).

Definition clamp (t : IntType) (mutable : bool) (coordinates : Tensor Z)
           (shape : list Z) : result (Tensor Z) :=
  d <- last_dim coordinates ;;
  _ <- assert (d =? List.length shape)%nat ;;
  match shape with
  | [] => Ok coordinates
  | _ :: _ =>
      if mutable
      then Ok (fold_left (set_component t shape) (seq 0 (List.length shape))
                         coordinates)
      else Raise TypeError
  end.

(** *** [gather] *)


Definition gather_values : Tensor Q :=
  of_list2 0%Q 3 2 [[1; 2]; [3; 4]; [5; 6]]%Q.
Definition gather_inner : Tensor Z :=
  mkTensor [4%nat] (fun pos => nth (hd 0%nat pos) [2; 0; 1; 2] 0).
Definition gather_outer : Tensor Z :=
  mkTensor [2%nat] (fun pos => nth (hd 0%nat pos) [3; 1] 0).


Example gather_twice :
  exists l,
    (g <- gather gather_values gather_inner ;; gather g gather_outer) = Ok l /\
    map (elem l) [[0; 0]; [0; 1]; [1; 0]; [1; 1]]%nat = [5; 6; 1; 2]%Q.
Proof. eexists. split; reflexivity. Qed.

(** *** [batched_gather_nd] *)




Definition nd_values : Tensor Q :=
  mkTensor [1; 2; 2; 1]%nat
    (fun pos =>
       match pos with
       | [_; x; y; _] => inject_Z (Z.of_nat (10 * x + y))
       | _ => 0%Q
       end).

Definition nd_indices : Tensor Z :=
  mkTensor [2; 1; 2]%nat
    (fun pos =>
       match pos with
       | [b; _; k] => nth k (nth b [[0; 1]; [1; 0]] []) 0
       | _ => 0
       end).


Example batched_gather_nd_broadcasts_values :
  exists out,
    batched_gather_nd nd_values nd_indices = Ok out /\
    map (elem out) [[0; 0; 0]; [1; 0; 0]]%nat = [1; 10]%Q.
Proof. eexists. split; [lazy; reflexivity|reflexivity]. Qed.

(** The entry assertion: with a trailing index axis of any other length
    than the number of axes of [values] between batch and channel,
    [batched_gather_nd] fails its assertion. *)
Theorem batched_gather_nd_checks_index_rank (A : Type) (values : Tensor A)
        (indices : Tensor Z) (d : nat) :
  last_dim indices = Ok d ->
  Z.of_nat d <> Z.of_nat (ndims values) - 2 ->
  batched_gather_nd values indices = Raise AssertionError.
Proof.
  intros Hd Hne. unfold batched_gather_nd. rewrite Hd. cbn [bind].
  destruct (Z.eqb_spec (Z.of_nat d) (Z.of_nat (ndims values) - 2));
    [contradiction|reflexivity].
Qed.

Lemma batched_gather_nd_checks_index_rank_witness :
  batched_gather_nd gather_values nd_indices = Raise AssertionError.
Proof.
  apply (@batched_gather_nd_checks_index_rank Q gather_values nd_indices 2).
  - reflexivity.
  - cbn. lia.
Defined.

(** *** [clamp] *)

Lemma modulus_positive (t : IntType) : 0 < modulus t.
Proof. unfold modulus. apply Z.pow_pos_nonneg; lia. Qed.

Lemma lowest_bounds (t : IntType) : lowest t <= 0 < lowest t + modulus t.
Proof.
  pose proof (modulus_positive t) as Hm. unfold lowest.
  destruct (signed t); [|lia].
  pose proof (Z.div_pos (modulus t) 2 ltac:(lia) ltac:(lia)).
  assert (modulus t / 2 < modulus t) by (apply Z.div_lt; lia).
  lia.
Qed.

Lemma wrap_fits (t : IntType) (z : Z) : fits t (wrap t z).
Proof.
  unfold fits, wrap.
  pose proof (Z.mod_pos_bound (z - lowest t) (modulus t) (modulus_positive t)).
  lia.
Qed.

Lemma wrap_of_fitting (t : IntType) (z : Z) : fits t z -> wrap t z = z.
Proof.
  unfold fits, wrap. intros H.
  rewrite Z.mod_small by lia. lia.
Qed.

Lemma wrap_below (t : IntType) (z : Z) : 0 <= z -> wrap t z <= z.
Proof.
  intros Hz. unfold wrap.
  pose proof (lowest_bounds t) as Hl.
  pose proof (Z.mod_le (z - lowest t) (modulus t) ltac:(lia)
                (modulus_positive t)).
  lia.
Qed.

Lemma clamp_component_fits (t : IntType) (bound v : Z) :
  fits t (clamp_component t bound v).
Proof.
  pose proof (wrap_fits t (bound - 1)) as Hb.
  pose proof (wrap_fits t v) as Hv.
  pose proof (lowest_bounds t) as Hl.
  unfold clamp_component, fits in *. lia.
Qed.

Lemma clamp_component_idempotent (t : IntType) (bound v : Z) :
  clamp_component t bound (clamp_component t bound v)
  = clamp_component t bound v.
Proof.
  pose proof (clamp_component_fits t bound v) as Hfit.
  unfold clamp_component at 1.
  rewrite (wrap_of_fitting Hfit).
  unfold clamp_component. lia.
Qed.

Lemma fold_set_component_shape (t : IntType) (shp : list Z) (l : list nat) :
  forall acc, shape (fold_left (set_component t shp) l acc) = shape acc.
Proof.
  induction l as [|i l IH]; intros acc; cbn [fold_left]; [reflexivity|].
  now rewrite IH.
Qed.

Lemma fold_set_component_elem (t : IntType) (shp : list Z) (l : list nat) :
  forall acc pos,
    elem (fold_left (set_component t shp) l acc) pos
    = if existsb (Nat.eqb (last pos 0%nat)) l
      then clamp_component t (nth (last pos 0%nat) shp 0) (elem acc pos)
      else elem acc pos.
Proof.
  induction l as [|i l IH]; intros acc pos; cbn [fold_left existsb];
    [reflexivity|].
  rewrite IH.
  assert (Hset : elem (set_component t shp acc i) pos
                 = if (last pos 0%nat =? i)%nat
                   then clamp_component t (nth i shp 0) (elem acc pos)
                   else elem acc pos) by reflexivity.
  rewrite Hset.
  destruct (Nat.eqb_spec (last pos 0%nat) i) as [->|Hne]; cbn [orb].
  - rewrite clamp_component_idempotent. now destruct (existsb _ l).
  - reflexivity.
Qed.

Lemma existsb_eqb_seq (k n : nat) :
  existsb (Nat.eqb k) (seq 0 n) = (k <? n)%nat.
Proof.
  destruct (Nat.ltb_spec k n) as [Hlt|Hge].
  - apply existsb_exists. exists k. split; [apply in_seq; lia|].
    apply Nat.eqb_refl.
  - destruct (existsb (Nat.eqb k) (seq 0 n)) eqn:E; [|reflexivity].
    apply existsb_exists in E as (x & Hin & Heq).
    apply in_seq in Hin. apply Nat.eqb_eq in Heq. lia.
Qed.

(** For a NumPy array of integers whose last axis has one entry per extent
    in [shape], computed in the integer dtype [t], [clamp] returns a tensor
    of the same shape in which component [k] of every coordinate vector lies
    in [[0, shape[k] - 1]] (for a positive extent).  Where [shape[k] - 1]
    fits the dtype, a component that already lay there is unchanged. *)
Theorem clamp_moves_into_bounds (t : IntType) (coordinates : Tensor Z)
        (shp : list Z) :
  last_dim coordinates = Ok (List.length shp) ->
  exists out,
    clamp t true coordinates shp = Ok out /\
    shape out = shape coordinates /\
    forall p k, (k < List.length shp)%nat ->
      (1 <= nth k shp 0 -> 0 <= elem out (p ++ [k]) <= nth k shp 0 - 1) /\
      (fits t (nth k shp 0 - 1) ->
       0 <= elem coordinates (p ++ [k]) <= nth k shp 0 - 1 ->
       elem out (p ++ [k]) = elem coordinates (p ++ [k])).
Proof.
  intros Hd.
  exists (fold_left (set_component t shp) (seq 0 (List.length shp))
                    coordinates).
  split; [|split].
  - unfold clamp. rewrite Hd. cbn [bind]. rewrite Nat.eqb_refl.
    cbn [assert bind]. now destruct shp.
  - apply fold_set_component_shape.
  - intros p k Hk. rewrite fold_set_component_elem, last_last.
    rewrite existsb_eqb_seq.
    apply Nat.ltb_lt in Hk. rewrite Hk. unfold clamp_component.
    split.
    + intros Hpos.
      pose proof (@wrap_below t (nth k shp 0 - 1) ltac:(lia)). lia.
    + intros Hfit Hin.
      pose proof (lowest_bounds t) as Hl.
      rewrite (wrap_of_fitting Hfit).
      rewrite (@wrap_of_fitting t (elem coordinates (p ++ [k])))
        by (unfold fits in *; lia).
      lia.
Qed.

(** Clamping what has been clamped changes nothing. *)
Theorem clamp_twice (t : IntType) (coordinates out : Tensor Z)
        (shp : list Z) :
  clamp t true coordinates shp = Ok out ->
  exists out',
    clamp t true out shp = Ok out' /\
    shape out' = shape out /\
    forall pos, elem out' pos = elem out pos.
Proof.
  unfold clamp. destruct (last_dim coordinates) as [d|e] eqn:Hd;
    [|discriminate].
  cbn [bind]. destruct (Nat.eqb_spec d (List.length shp)) as [->|Hne];
    [|discriminate].
  cbn [assert bind]. intros Hout.
  assert (Hfold : out = fold_left (set_component t shp)
                          (seq 0 (List.length shp)) coordinates).
  { destruct shp; now injection Hout as <-. }
  subst out.
  assert (Hd' : last_dim (fold_left (set_component t shp)
                            (seq 0 (List.length shp)) coordinates)
                = Ok (List.length shp)).
  { unfold last_dim in *. now rewrite fold_set_component_shape. }
  rewrite Hd'. cbn [bind]. rewrite Nat.eqb_refl. cbn [assert bind].
  exists (fold_left (set_component t shp) (seq 0 (List.length shp))
            (fold_left (set_component t shp) (seq 0 (List.length shp))
                       coordinates)).
  split; [now destruct shp|]. split.
  - apply fold_set_component_shape.
  - intros pos. rewrite !fold_set_component_elem.
    destruct (existsb _ _); [|reflexivity].
    apply clamp_component_idempotent.
Qed.

Definition clamp_coordinates : Tensor Z :=
  of_list2 0 3 2 [[-4; 1]; [7; 9]; [2; 0]].

Lemma clamp_moves_into_bounds_witness :
  exists out,
    clamp int32 true clamp_coordinates [3; 5] = Ok out /\
    shape out = shape clamp_coordinates /\
    forall p k, (k < 2)%nat ->
      (1 <= nth k [3; 5] 0 -> 0 <= elem out (p ++ [k]) <= nth k [3; 5] 0 - 1) /\
      (fits int32 (nth k [3; 5] 0 - 1) ->
       0 <= elem clamp_coordinates (p ++ [k]) <= nth k [3; 5] 0 - 1 ->
       elem out (p ++ [k]) = elem clamp_coordinates (p ++ [k])).
Proof.
  exact (@clamp_moves_into_bounds int32 clamp_coordinates [3; 5] eq_refl).
Defined.

Lemma clamp_twice_witness :
  exists out',
    clamp int32 true
          (fold_left (set_component int32 [3; 5]) (seq 0 2) clamp_coordinates)
          [3; 5]
    = Ok out' /\
    shape out' = [3; 2]%nat /\
    forall pos,
      elem out' pos
      = elem (fold_left (set_component int32 [3; 5]) (seq 0 2)
                        clamp_coordinates) pos.
Proof.
  exact (@clamp_twice int32 clamp_coordinates _ [3; 5] eq_refl).
Defined.

Example clamp_example :
  exists out,
    clamp int32 true clamp_coordinates [3; 5] = Ok out /\
    map (elem out) [[0; 0]; [0; 1]; [1; 0]; [1; 1]; [2; 0]; [2; 1]]%nat
    = [0; 1; 2; 4; 2; 0].
Proof. eexists. split; reflexivity. Qed.

(** An extent that does not fit the dtype wraps around before it bounds the
    column: 8-bit coordinates [[100, 1]] clamped to extents [(300, 5)] come
    back as [[43, 1]]. *)
Example clamp_of_int8 :
  exists out,
    clamp int8 true (of_list2 0 1 2 [[100; 1]]) [300; 5] = Ok out /\
    map (elem out) [[0; 0]; [0; 1]]%nat = [43; 1].
Proof. eexists. split; reflexivity. Qed.

Example clamp_checks_rank :
  clamp int32 true clamp_coordinates [3; 5; 7] = Raise AssertionError.
Proof. reflexivity. Qed.

Example clamp_of_engine_array :
  clamp int32 false clamp_coordinates [3; 5] = Raise TypeError.
Proof. reflexivity. Qed.

End Indexing.

(** ** [list_devices] *)

Module Devices.

(** A device as the engine reports it: [jax_dev.id], [jax_dev.platform] and
    [jax_dev.device_kind]. *)
Record JaxDevice : Type := mkJaxDevice {
  id : Z;
  platform : string;
  device_kind : string
}.

(** Modelled from the spec: [ComputeDevice] of [phi.math.backend], which is
    not among the sources, with the fields that [list_devices] passes to its
    constructor in order: owning backend, name, type tag, memory, processor
    count, description and the engine's own handle. *)
Record ComputeDevice : Type := mkComputeDevice {
  backend : string;
  name : string;
  device_type : string;
  memory : Z;
  processor_count : Z;
  description : string;
  ref : JaxDevice
}.

(** [str.upper()] on ASCII text, which is what platform names are. *)
Definition is_lower (c : ascii) : bool :=
  (97 <=? nat_of_ascii c)%nat && (nat_of_ascii c <=? 122)%nat.

Definition upper_char (c : ascii) : ascii :=
  if is_lower c then ascii_of_nat (nat_of_ascii c - 32) else c.

Fixpoint upper (s : string) : string :=
  match s with
  | EmptyString => EmptyString
  | String c s' => String (upper_char c) (upper s')
  end.

Fixpoint has_lower (s : string) : bool :=
  match s with
  | EmptyString => false
  | String c s' => is_lower c || has_lower s'
  end.

Section ListDevices.

(** [jax.devices()] and the text of [f"id={jax_dev.id}"]. *)
Variable jax_devices : list JaxDevice.
Variable describe : Z -> string.

Definition list_devices (device_type : option string) : list ComputeDevice :=
  flat_map
    (fun jax_dev =>
       let jax_dev_type := upper (platform jax_dev) in
       if match device_type with
          | None => true
          | Some t => String.eqb t jax_dev_type
          end
       then [mkComputeDevice "Jax" (device_kind jax_dev) jax_dev_type (-1) (-1)
               (describe (id jax_dev)) jax_dev]
       else [])
    jax_devices.

Lemma upper_char_not_lower (c : ascii) : is_lower (upper_char c) = false.
Proof.
  unfold upper_char. destruct (is_lower c) eqn:Hc; [|exact Hc].
  unfold is_lower in *. apply andb_prop in Hc as [H1 H2].
  apply Nat.leb_le in H1, H2.
  rewrite nat_ascii_embedding by lia.
  apply andb_false_intro1. apply Nat.leb_gt. lia.
Qed.

Lemma upper_has_no_lower (s : string) : has_lower (upper s) = false.
Proof.
  induction s as [|c s IH]; cbn [upper has_lower]; [reflexivity|].
  now rewrite upper_char_not_lower, IH.
Qed.

(** The engine's platform name is upper-cased before it is compared with
    the filter, and the filter is not: a [device_type] with a lower-case
    letter, such as ['cpu'], selects no device. *)
Theorem list_devices_lower_case_filter (t : string) :
  has_lower t = true ->
  list_devices (Some t) = [].
Proof.
  intros Ht. unfold list_devices.
  induction jax_devices as [|d l IH]; cbn [flat_map]; [reflexivity|].
  rewrite IH.
  destruct (String.eqb_spec t (upper (platform d))) as [->|Hne];
    [|reflexivity].
  now rewrite upper_has_no_lower in Ht.
Qed.

(** The handles of the listed devices are the engine's devices that pass
    the filter, each once and in the engine's order (all of them when no
    filter is given); every listed device carries the upper-cased platform
    as its type and [-1] for memory and processor count. *)
Theorem list_devices_keeps_engine_order (device_type : option string) :
  map ref (list_devices device_type)
  = filter (fun d =>
              match device_type with
              | None => true
              | Some t => String.eqb t (upper (platform d))
              end)
           jax_devices /\
  (device_type = None -> map ref (list_devices device_type) = jax_devices) /\
  Forall (fun d =>
            Devices.device_type d = upper (platform (ref d)) /\
            (forall t, device_type = Some t -> Devices.device_type d = t) /\
            memory d = -1 /\ processor_count d = -1)
         (list_devices device_type).
Proof.
  unfold list_devices. split; [|split].
  - induction jax_devices as [|d l IH]; cbn [flat_map filter map];
      [reflexivity|].
    rewrite map_app, IH.
    now destruct (match device_type with None => true | Some _ => _ end).
  - intros ->. induction jax_devices as [|d l IH]; [reflexivity|].
    cbn [flat_map]. rewrite map_app, IH. reflexivity.
  - induction jax_devices as [|d l IH]; cbn [flat_map]; [constructor|].
    apply Forall_app. split; [|exact IH].
    destruct device_type as [t|].
    + destruct (String.eqb_spec t (upper (platform d))) as [->|Hne];
        [|constructor].
      constructor; [|constructor]. cbn. repeat split.
      now intros t' [= <-].
    + constructor; [|constructor]. cbn. repeat split. discriminate.
Qed.

End ListDevices.

Definition two_devices : list JaxDevice :=
  [mkJaxDevice 0 "cpu" "cpu"; mkJaxDevice 0 "gpu" "Tesla V100"].

Definition describe_id (_ : Z) : string := "id".

Lemma list_devices_lower_case_filter_witness :
  list_devices two_devices describe_id (Some "cpu"%string) = [].
Proof.
  apply (@list_devices_lower_case_filter two_devices describe_id "cpu").
  reflexivity.
Defined.

Example list_devices_upper_case_filter :
  map name (list_devices two_devices describe_id (Some "GPU"%string))
  = ["Tesla V100"%string].
Proof. reflexivity. Qed.

End Devices.

(** ** [sum] over a sequence and [matmul] *)

Module Reductions.
Import Array Scatter.

(** Elementwise [a + b] of two arrays of one shape. *)
Definition add (a b : Tensor Q) : Tensor Q :=
  mkTensor (shape a) (fun pos => (elem a pos + elem b pos)%Q).

(** What [sum] may be given: a tuple or list of arrays, or one array. *)
Inductive SumArgument : Type :=
| Arrays (l : list (Tensor Q))
| Array (t : Tensor Q).

Section Sum.

(** [jnp.sum(value, axis=axis, keepdims=keepdims)]. *)
Variable jnp_sum : Tensor Q -> option Z -> bool -> result (Tensor Q).

(** For a tuple or list the method asserts [axis == 0] and returns Python's
    [sum(value[1:], value[0])]. *)
Definition sum (value : SumArgument) (axis : option Z) (keepdims : bool)
  : result (Tensor Q) :=
  match value with
  | Arrays l =>
      _ <- assert (match axis with Some 0 => true | _ => false end) ;;
      match l with
      | [] => Raise IndexError
      | first :: rest => Ok (fold_left add rest first)
      end
  | Array t => jnp_sum t axis keepdims
  end.

Lemma fold_add_elem (rest : list (Tensor Q)) :
  forall first pos,
    (elem (fold_left add rest first) pos
     == elem first pos + Qsum (map (fun t => elem t pos) rest))%Q.
Proof.
  induction rest as [|t rest IH]; intros first pos; cbn [fold_left map Qsum].
  - ring.
  - rewrite IH. cbn [add elem]. ring.
Qed.

Lemma fold_add_shape (rest : list (Tensor Q)) :
  forall first, shape (fold_left add rest first) = shape first.
Proof.
  induction rest as [|t rest IH]; intros first; cbn [fold_left];
    [reflexivity|].
  now rewrite IH.
Qed.

(** Summing a tuple or list of arrays of one shape: any [axis] but 0 fails
    the assertion, also for an empty sequence; an empty sequence with
    [axis = 0] raises [IndexError]; otherwise the result has the shape of
    the arrays and holds, at every position, the total of the arrays'
    entries there. *)
Theorem sum_of_arrays (l : list (Tensor Q)) (axis : option Z)
        (keepdims : bool) :
  (axis <> Some 0 -> sum (Arrays l) axis keepdims = Raise AssertionError) /\
  (axis = Some 0 -> l = [] -> sum (Arrays l) axis keepdims = Raise IndexError) /\
  (axis = Some 0 -> forall first rest, l = first :: rest ->
   Forall (fun t => shape t = shape first) rest ->
   exists out,
     sum (Arrays l) axis keepdims = Ok out /\
     shape out = shape first /\
     forall pos, (elem out pos == Qsum (map (fun t => elem t pos) l))%Q).
Proof.
  split; [|split].
  - intros Hax. unfold sum.
    destruct axis as [[|p|p]|]; try reflexivity. contradiction.
  - intros -> ->. reflexivity.
  - intros -> first rest -> _. eexists. split; [reflexivity|]. split.
    + apply fold_add_shape.
    + intros pos. rewrite fold_add_elem. cbn [map Qsum]. reflexivity.
Qed.

End Sum.

(** [A.dot(v)] for a matrix [A] of shape [n, m] and a vector [v] of shape
    [m]; other shapes are refused. *)
Definition dot (A v : Tensor Q) : result (Tensor Q) :=
  match shape A, shape v with
  | [n; m], [m'] =>
      if (m =? m')%nat
      then Ok (mkTensor [n]
                 (fun pos =>
                    Qsum (map (fun j => (elem A [hd 0%nat pos; j] * elem v [j])%Q)
                              (seq 0 m))))
      else Raise ValueError
  | _, _ => Raise ValueError
  end.

Definition matmul (A b : Tensor Q) : result (Tensor Q) :=
  bs <- dim0 b ;;
  rows <- mapM (fun i => b_i <- index b i ;; dot A b_i) (seq 0 bs) ;;
  stack rows.

(** Row [i] of [matmul(A, b)]. *)
Definition matmul_row (A b : Tensor Q) (n m i : nat) : Tensor Q :=
  mkTensor [n]
    (fun pos =>
       Qsum (map (fun j => (elem A [hd 0%nat pos; j] * elem b [i; j])%Q)
                 (seq 0 m))).

Lemma matmul_rows (A b : Tensor Q) (n m B : nat) :
  shape A = [n; m] -> shape b = [B; m] ->
  mapM (fun i => b_i <- index b i ;; dot A b_i) (seq 0 B)
  = Ok (map (matmul_row A b n m) (seq 0 B)).
Proof.
  intros HA Hb. apply mapM_ok_map. intros i Hi. apply in_seq in Hi.
  unfold index. rewrite Hb.
  replace (i <? B)%nat with true by (symmetry; apply Nat.ltb_lt; lia).
  cbn [bind]. unfold dot. cbn [shape]. rewrite HA, Nat.eqb_refl.
  reflexivity.
Qed.

Lemma matmul_entries (A b : Tensor Q) (n m B : nat) :
  shape A = [n; m] -> shape b = [B; m] -> (1 <= B)%nat ->
  exists out,
    matmul A b = Ok out /\
    shape out = [B; n] /\
    forall i r, (i < B)%nat ->
      elem out [i; r]
      = Qsum (map (fun j => (elem A [r; j] * elem b [i; j])%Q) (seq 0 m)).
Proof.
  intros HA Hb HB.
  destruct (stack_map_seq (matmul_row A b n m) HB)
    as (out & Hout & Hshape & Helem).
  exists out. split; [|split].
  - unfold matmul, dim0. rewrite Hb. cbn [bind].
    rewrite (matmul_rows A b HA Hb). cbn [bind]. exact Hout.
  - exact Hshape.
  - intros i r Hi. now rewrite (Helem i [r] Hi).
Qed.

(** [matmul] works on one vector of the batch at a time: for [A] of shape
    [n, m] and batches [b], [b'] of shapes [B, m] and [B', m], both calls
    return, with shapes [B, n] and [B', n], and where the two batches hold
    the same vector at position [i] the two products hold the same row
    there, whatever the other vectors are. *)
Theorem matmul_rows_are_independent (A b b' : Tensor Q) (n m B B' i : nat) :
  shape A = [n; m] -> shape b = [B; m] -> shape b' = [B'; m] ->
  (i < B)%nat -> (i < B')%nat ->
  (forall j, (j < m)%nat -> (elem b [i; j] == elem b' [i; j])%Q) ->
  exists out out',
    matmul A b = Ok out /\
    matmul A b' = Ok out' /\
    shape out = [B; n] /\
    shape out' = [B'; n] /\
    forall r, (elem out [i; r] == elem out' [i; r])%Q.
Proof.
  intros HA Hb Hb' Hi Hi' Hrow.
  destruct (matmul_entries A b HA Hb ltac:(lia)) as (out & Ho & Hs & He).
  destruct (matmul_entries A b' HA Hb' ltac:(lia))
    as (out' & Ho' & Hs' & He').
  exists out, out'. repeat split; try assumption.
  intros r. rewrite (He i r Hi), (He' i r Hi').
  apply ScatterFacts.Qsum_ext. intros j Hj. apply in_seq in Hj.
  rewrite (Hrow j) by lia. reflexivity.
Qed.

(** An empty batch of vectors leaves nothing to stack: [matmul] raises
    [ValueError] whatever [A] is. *)
Theorem matmul_of_empty_batch (A b : Tensor Q) (s : list nat) :
  shape b = 0%nat :: s ->
  matmul A b = Raise ValueError.
Proof.
  intros Hb. unfold matmul, dim0. rewrite Hb. reflexivity.
Qed.

Definition no_jnp_sum (_ : Tensor Q) (_ : option Z) (_ : bool)
  : result (Tensor Q) := Raise TypeError.

Lemma sum_of_arrays_witness :
  sum no_jnp_sum (Arrays []) None false = Raise AssertionError /\
  sum no_jnp_sum (Arrays []) (Some 0) false = Raise IndexError /\
  exists out,
    sum no_jnp_sum (Arrays [ones [2%nat]; ones [2%nat]; ones [2%nat]])
        (Some 0) false = Ok out /\
    shape out = [2%nat] /\
    forall pos,
      (elem out pos
       == Qsum (map (fun t => elem t pos)
                    [ones [2%nat]; ones [2%nat]; ones [2%nat]]))%Q.
Proof.
  split; [|split].
  - apply (proj1 (@sum_of_arrays no_jnp_sum [] None false)). discriminate.
  - now apply (proj1 (proj2 (@sum_of_arrays no_jnp_sum [] (Some 0) false))).
  - apply (proj2 (proj2 (@sum_of_arrays no_jnp_sum
                           [ones [2%nat]; ones [2%nat]; ones [2%nat]]
                           (Some 0) false))
             eq_refl (ones [2%nat]) [ones [2%nat]; ones [2%nat]] eq_refl).
    repeat constructor.
Defined.

Definition matmul_A : Tensor Q := of_list2 0%Q 2 2 [[4; 1]; [1; 3]]%Q.
Definition matmul_b1 : Tensor Q := of_list2 0%Q 2 2 [[1; 0]; [2; 5]]%Q.
Definition matmul_b2 : Tensor Q :=
  of_list2 0%Q 3 2 [[1; 0]; [7; 7]; [3; 3]]%Q.

Lemma matmul_rows_are_independent_witness :
  exists out out',
    matmul matmul_A matmul_b1 = Ok out /\
    matmul matmul_A matmul_b2 = Ok out' /\
    shape out = [2; 2]%nat /\
    shape out' = [3; 2]%nat /\
    forall r, (elem out [0; r]%nat == elem out' [0; r]%nat)%Q.
Proof.
  apply (@matmul_rows_are_independent matmul_A matmul_b1 matmul_b2
           2 2 2 3 0 eq_refl eq_refl eq_refl).
  - lia.
  - lia.
  - intros j Hj. destruct j as [|[|j]]; [reflexivity|reflexivity|lia].
Defined.

Lemma matmul_of_empty_batch_witness :
  matmul matmul_A (mkTensor [0; 2]%nat (fun _ => 0%Q)) = Raise ValueError.
Proof.
  exact (@matmul_of_empty_batch matmul_A (mkTensor [0; 2]%nat (fun _ => 0%Q))
           [2%nat] eq_refl).
Defined.

Example matmul_example :
  exists out,
    matmul matmul_A matmul_b1 = Ok out /\
    map (elem out) [[0; 0]; [0; 1]; [1; 0]; [1; 1]]%nat = [4; 1; 13; 17]%Q.
Proof. eexists. split; [lazy; reflexivity|reflexivity]. Qed.

End Reductions.

(** ** [as_tensor] and [cast]: dtypes of the results *)

Module TensorFacts.
Import Cast.

Section Backend.

Variable NpDType : Type.
Variable Arr : Type.
Variable arr_dtype : Arr -> NpDType.
Variable jnp_array : Value Arr -> option NpDType -> result Arr.
Variable to_numpy_dtype : DType -> result NpDType.
Variable from_numpy_dtype : NpDType -> result DType.
Variable precision : nat.
Variable x64_available : bool.

Local Abbreviation cast :=
  (cast arr_dtype jnp_array to_numpy_dtype from_numpy_dtype).
Local Abbreviation dtype := (dtype arr_dtype jnp_array from_numpy_dtype).
Local Abbreviation as_tensor :=
  (as_tensor arr_dtype jnp_array to_numpy_dtype from_numpy_dtype
             precision x64_available).
Local Abbreviation float_type := (float_type precision).

(** The engine builds arrays of exactly the dtype [d] on request, and both
    tables list [d]. *)
Definition builds_exactly (d : DType) : Prop :=
  exists t,
    to_numpy_dtype d = Ok t /\
    from_numpy_dtype t = Ok d /\
    forall v a, jnp_array v (Some t) = Ok a -> arr_dtype a = t.

Lemma cast_result_dtype (x t : Value Arr) (d : DType) :
  builds_exactly d ->
  cast x d = Ok t ->
  (exists a, t = JaxArray a) /\ dtype t = Ok d.
Proof.
  intros (np & Hto & Hfrom & Hbuild) Hcast.
  assert (Hconv : (np' <- to_numpy_dtype d ;;
                   a <- jnp_array x (Some np') ;;
                   Ok (JaxArray a)) = Ok t ->
                  (exists a, t = JaxArray a) /\ dtype t = Ok d).
  { rewrite Hto. cbn [bind].
    destruct (jnp_array x (Some np)) as [a|e] eqn:Ha; [|discriminate].
    cbn [bind]. intros [= <-]. split; [now exists a|].
    cbn [Cast.dtype]. now rewrite (Hbuild x a Ha). }
  destruct x as [a|a|n|s|l|]; try exact (Hconv Hcast).
  unfold Cast.cast in Hcast.
  destruct (from_numpy_dtype (arr_dtype a)) as [d0|e] eqn:Hd0;
    [|discriminate].
  cbn [bind] in Hcast. destruct (dtype_eqb d0 d) eqn:Heq.
  - injection Hcast as <-. apply dtype_eqb_eq in Heq. subst d0.
    split; [now exists a|exact Hd0].
  - exact (Hconv Hcast).
Qed.

(** A cast that returns, returns an array of the engine whose dtype is the
    requested one. *)
Theorem cast_gives_requested_dtype (x t : Value Arr) (d : DType) :
  builds_exactly d ->
  cast x d = Ok t ->
  (exists a, t = JaxArray a) /\ dtype t = Ok d.
Proof.
  intros Hd Hcast.
  destruct (cast_result_dtype x Hd Hcast) as [Hnative Hdtype].
  split; assumption.
Qed.

(** [as_tensor] enforces the working precision: what it returns is an array
    of the engine with a listed dtype, and when that dtype is a float it is
    the float of the backend's precision.  An engine array whose dtype is
    not a float is handed back as it is. *)
Theorem as_tensor_enforces_precision (x t : Value Arr) :
  builds_exactly float_type ->
  as_tensor x true = Ok t ->
  exists a d,
    t = JaxArray a /\
    dtype t = Ok d /\
    (kind d = KFloat -> d = float_type) /\
    (forall a0, x = JaxArray a0 -> kind d <> KFloat -> t = x).
Proof.
  intros Hft. unfold Cast.as_tensor.
  destruct (check_float64 precision x64_available) as [[]|]; [|discriminate].
  cbn [bind].
  assert (Hfin : forall a0,
             (if negb (is_number (JaxArray a0))
              then d <- dtype (JaxArray a0) ;;
                   (if kind_eqb (kind d) KFloat
                    then to_float arr_dtype jnp_array to_numpy_dtype
                                  from_numpy_dtype precision (JaxArray a0)
                    else Ok (JaxArray a0))
              else Ok (JaxArray a0)) = Ok t ->
             exists a d,
               t = JaxArray a /\ dtype t = Ok d /\
               (kind d = KFloat -> d = float_type) /\
               (kind d <> KFloat -> t = JaxArray a0)).
  { intros a0. cbn [is_number negb Cast.dtype].
    destruct (from_numpy_dtype (arr_dtype a0)) as [d0|e] eqn:Hd0;
      [|discriminate].
    cbn [bind]. destruct (kind_eqb (kind d0) KFloat) eqn:Hk.
    - intros Hcast. unfold to_float in Hcast.
      destruct (cast_result_dtype _ Hft Hcast) as [[a ->] Hd].
      exists a, float_type. repeat split; try assumption.
      intros Hne. now cbn in Hne.
    - intros [= <-]. exists a0, d0. repeat split.
      + exact Hd0.
      + intros Hkind. rewrite Hkind in Hk. discriminate.  }
  destruct x as [ax|ax|n|s|l|]; cbn [is_tensor bind].
  1: { intros H. destruct (Hfin ax H) as (a & d & Ht & Hd & Hf & Hsame).
       exists a, d. repeat split; try assumption.
       intros a0 [= <-]. exact Hsame. }
  all: destruct (jnp_array _ None) as [a0|e]; [|discriminate]; cbn [bind];
    intros H; destruct (Hfin a0 H) as (a & d & Ht & Hd & Hf & _);
    exists a, d; repeat split; try assumption; intros a1 Hx; discriminate Hx.
Qed.

(** [as_tensor] applied to its own result returns that result. *)
Theorem as_tensor_twice (x t : Value Arr) :
  supported arr_dtype jnp_array to_numpy_dtype from_numpy_dtype float_type ->
  as_tensor x true = Ok t ->
  as_tensor t true = Ok t.
Proof.
  intros Hs Hx.
  destruct (@as_tensor_native NpDType Arr arr_dtype jnp_array to_numpy_dtype
              from_numpy_dtype precision x64_available x t Hx) as [a ->].
  revert Hx. unfold Cast.as_tensor.
  destruct (check_float64 precision x64_available) as [[]|]; [|discriminate].
  cbn [bind is_tensor is_number negb].
  assert (Hfin : forall a0,
             (d <- dtype (JaxArray a0) ;;
              (if kind_eqb (kind d) KFloat
               then to_float arr_dtype jnp_array to_numpy_dtype
                             from_numpy_dtype precision (JaxArray a0)
               else Ok (JaxArray a0))) = Ok (JaxArray a) ->
             (d <- dtype (JaxArray a) ;;
              (if kind_eqb (kind d) KFloat
               then to_float arr_dtype jnp_array to_numpy_dtype
                             from_numpy_dtype precision (JaxArray a)
               else Ok (JaxArray a))) = Ok (JaxArray a)).
  { intros a0. cbn [Cast.dtype].
    destruct (from_numpy_dtype (arr_dtype a0)) as [d0|e] eqn:Hd0;
      [|discriminate].
    cbn [bind]. destruct (kind_eqb (kind d0) KFloat) eqn:Hk.
    - unfold to_float. intros Hcast.
      pose proof (@cast_cast NpDType Arr arr_dtype jnp_array to_numpy_dtype
                    from_numpy_dtype (JaxArray a0) float_type Hs) as Hcc.
      rewrite Hcast in Hcc. cbn [bind] in Hcc.
      assert (Hd : exists d1, from_numpy_dtype (arr_dtype a) = Ok d1).
      { unfold Cast.cast in Hcc.
        destruct (from_numpy_dtype (arr_dtype a)) as [d1|e];
          [now exists d1|discriminate]. }
      destruct Hd as [d1 Hd1]. rewrite Hd1. cbn [bind].
      destruct (kind_eqb (kind d1) KFloat); [exact Hcc|reflexivity].
    - intros [= <-]. rewrite Hd0. cbn [bind]. now rewrite Hk. }
  destruct x as [ax|ax|n|s|l|]; cbn [is_tensor bind is_number negb].
  1: apply Hfin.
  all: destruct (jnp_array _ None) as [a0|e]; [|discriminate];
    cbn [bind is_number negb]; apply Hfin.
Qed.

End Backend.

Lemma float32_built_exactly :
  builds_exactly np_dtype exact_array table_to_numpy table_from_numpy
                 (Cast.float_type 32).
Proof.
  exists (mkDType KFloat 32). repeat split.
  intros v a. unfold exact_array.
  destruct (infer_array v) as [a0|e]; [|discriminate].
  cbn [bind]. now intros [= <-].
Qed.

Lemma float32_supported :
  supported np_dtype exact_array table_to_numpy table_from_numpy
            (Cast.float_type 32).
Proof.
  exists (mkDType KFloat 32). split; [reflexivity|].
  intros v a. unfold exact_array.
  destruct (infer_array v) as [a0|e]; [|discriminate].
  cbn [bind]. intros [= <-]. now left.
Qed.

Definition float64_array : Value HostArray :=
  NumpyArray (mkHostArray (mkDType KFloat 64) [5 # 2; 1 # 3]).

Definition float32_array : Value HostArray :=
  JaxArray (mkHostArray (mkDType KFloat 32) [5 # 2; 1 # 3]).

Lemma cast_gives_requested_dtype_witness :
  (exists a, float32_array = JaxArray a) /\
  Cast.dtype np_dtype exact_array table_from_numpy float32_array
  = Ok (Cast.float_type 32).
Proof.
  exact (@cast_gives_requested_dtype DType HostArray np_dtype exact_array
           table_to_numpy table_from_numpy float64_array float32_array
           (Cast.float_type 32) float32_built_exactly eq_refl).
Defined.

Lemma as_tensor_enforces_precision_witness :
  exists a d,
    float32_array = JaxArray a /\
    Cast.dtype np_dtype exact_array table_from_numpy float32_array = Ok d /\
    (kind d = KFloat -> d = Cast.float_type 32) /\
    (forall a0, float64_array = JaxArray a0 -> kind d <> KFloat ->
                float32_array = float64_array).
Proof.
  exact (@as_tensor_enforces_precision DType HostArray np_dtype exact_array
           table_to_numpy table_from_numpy 32 false float64_array
           float32_array float32_built_exactly eq_refl).
Defined.

Lemma as_tensor_twice_witness :
  Cast.as_tensor np_dtype exact_array table_to_numpy table_from_numpy
                 32 false float32_array true
  = Ok float32_array.
Proof.
  exact (@as_tensor_twice DType HostArray np_dtype exact_array
           table_to_numpy table_from_numpy 32 false float64_array
           float32_array float32_supported eq_refl).
Defined.

End TensorFacts.

(** ** [functional_gradient]: the two modes *)

Module GradientFacts.
Import Gradient.

(** For [f] returning a single value, or a tuple or list with at least one
    auxiliary output, and a non-empty [wrt] naming arguments that are there:
    [get_output=False] returns one gradient per entry of [wrt], and
    [get_output=True] returns the outputs of [f] followed by exactly those
    gradients. *)
Theorem functional_gradient_modes_agree (f : Returned) (e : Expr)
        (aux : list Expr) (wrt : list nat) (args : list Q) :
  wrt <> [] ->
  argnums_ok wrt args = true ->
  (f = Value e /\ aux = []) \/ (f = Seq (e :: aux) /\ aux <> []) ->
  exists grads,
    functional_gradient f wrt false args = Ok grads /\
    List.length grads = List.length wrt /\
    functional_gradient f wrt true args
    = Ok ((eval args e :: map (eval args) aux) ++ grads).
Proof.
  intros Hwrt Hok Hf.
  exists (map (fun i => eval args (diff i e)) wrt).
  destruct (@functional_gradient_output_then_gradients e aux wrt args
              Hwrt Hok) as [Hvalue Hseq].
  destruct wrt as [|w wrt]; [contradiction|].
  destruct Hf as [[-> ->]|[-> Hne]].
  - split; [|split].
    + unfold functional_gradient, grad. now rewrite Hok.
    + apply length_map.
    + exact Hvalue.
  - split; [|split].
    + unfold functional_gradient, grad. now rewrite Hok.
    + apply length_map.
    + exact (Hseq Hne).
Qed.

Lemma functional_gradient_modes_agree_witness :
  exists grads,
    functional_gradient (Seq [square; Add (Arg 0) (Arg 1)]) [0; 1]%nat false
                        [3; 5]%Q = Ok grads /\
    List.length grads = 2%nat /\
    functional_gradient (Seq [square; Add (Arg 0) (Arg 1)]) [0; 1]%nat true
                        [3; 5]%Q
    = Ok ((eval [3; 5]%Q square :: map (eval [3; 5]%Q) [Add (Arg 0) (Arg 1)])
            ++ grads).
Proof.
  apply (@functional_gradient_modes_agree
           (Seq [square; Add (Arg 0) (Arg 1)]) square [Add (Arg 0) (Arg 1)]
           [0; 1]%nat [3; 5]%Q ltac:(discriminate) eq_refl).
  right. split; [reflexivity|discriminate].
Defined.

Example functional_gradient_two_arguments :
  functional_gradient (Seq [square; Add (Arg 0) (Arg 1)]) [0; 1]%nat true
                      [3; 5]%Q
  = Ok [9; 8; 6; 0]%Q.
Proof. reflexivity. Qed.

End GradientFacts.

(** ** Random sampling: calls that fail *)

Module RandomFacts.
Import Random.

Section PRNG.

Variable Key : Type.
Variable Sample : Type.
Variable split : Key -> Key * Key.
Variable uniform : Key -> list nat -> nat -> Sample.
Variable normal : Key -> list nat -> nat -> Sample.
Variable precision : nat.
Variable x64_available : bool.

(** A call that fails does not touch the stored key.  When the precision
    check fails (64-bit floats requested and not available), or when the
    backend was constructed without a key, every call of a sequence raises
    and the backend is left exactly as it was before the first call. *)
Theorem failing_random_calls_keep_the_key (calls : list Call)
        (self : JaxBackend Key) :
  Cast.check_float64 precision x64_available = Raise AssertionError \/
  rnd_key self = None ->
  snd (run_calls split uniform normal precision x64_available calls self)
  = self /\
  Forall (fun r => is_ok r = false)
         (fst (run_calls split uniform normal precision x64_available
                         calls self)).
Proof.
  intros Hfail.
  assert (Hcall : forall c,
             exists e,
               call split uniform normal precision x64_available c self
               = (Raise e, self)).
  { intros c. unfold call, random_uniform, random_normal, random_sample.
    destruct Hfail as [Hcheck|Hkey].
    - rewrite Hcheck. exists AssertionError. now destruct (sampler c).
    - rewrite Hkey.
      destruct (Cast.check_float64 precision x64_available) as [u|e].
      + exists TypeError. now destruct (sampler c).
      + exists e. now destruct (sampler c). }
  induction calls as [|c calls IH]; cbn [run_calls].
  - split; [reflexivity|constructor].
  - destruct (Hcall c) as [e He]. rewrite He.
    destruct (run_calls split uniform normal precision x64_available
                        calls self) as [rs self'] eqn:Hrun.
    cbn [fst snd] in *. destruct IH as [IH1 IH2].
    split; [exact IH1|]. constructor; [reflexivity|exact IH2].
Qed.

End PRNG.

Lemma failing_random_calls_keep_the_key_witness :
  snd (run_calls tree_split (tagged Uniform) (tagged Normal) 64 false
                 two_calls (init tree_key))
  = init tree_key /\
  Forall (fun r => is_ok r = false)
         (fst (run_calls tree_split (tagged Uniform) (tagged Normal) 64 false
                         two_calls (init tree_key))).
Proof.
  apply (@failing_random_calls_keep_the_key
           positive _ tree_split (tagged Uniform) (tagged Normal) 64 false
           two_calls (init tree_key)).
  left. reflexivity.
Defined.

End RandomFacts.

(** ** [conjugate_gradient]: exceptions and empty batches *)

Module SolverFacts.
Import Array Solver.

Section ConjugateGradient.

Variable Info : Type.
Variable cg : LinearOperator -> Tensor Q -> Tensor Q -> Q -> Q -> nat
              -> result (Tensor Q * Info).

(** The solve of batch element [b], as the loop of [conjugate_gradient]
    calls the engine. *)
Definition solve_of (A : LinearOperator) (y x0 : Tensor Q)
           (solve_params : LinearSolve) (by_ bx b : nat)
  : result (Tensor Q * Info) :=
  cg A (slice y (Nat.min b (by_ - 1))) (slice x0 (Nat.min b (bx - 1)))
     (relative_tolerance solve_params) (absolute_tolerance solve_params)
     (max_iterations solve_params).

(** When the engine's solver raises on batch element [b] after accepting
    the elements before it, [conjugate_gradient] raises that exception and
    [solve_params] keeps the result slot it came with: nothing is recorded
    for the elements already solved. *)
Theorem conjugate_gradient_propagates_exception (A : LinearOperator)
        (y x0 : Tensor Q) (solve_params : LinearSolve) (by_ bx b : nat)
        (sy sx : list nat) (e : Exception) :
  shape y = by_ :: sy ->
  shape x0 = bx :: sx ->
  (1 <= by_)%nat -> (1 <= bx)%nat ->
  by_ = bx \/ by_ = 1%nat \/ bx = 1%nat ->
  operator_batch A = None ->
  (b < Nat.max by_ bx)%nat ->
  (forall b', (b' < b)%nat ->
     is_ok (solve_of A y x0 solve_params by_ bx b') = true) ->
  solve_of A y x0 solve_params by_ bx b = Raise e ->
  conjugate_gradient cg A y x0 solve_params = (Raise e, solve_params).
Proof.
  intros Hy Hx0 Hby Hbx Hcompat HA Hb Hbefore Hat.
  unfold conjugate_gradient, solve_batches, dim0.
  rewrite Hy, Hx0. cbn [bind].
  rewrite (combined_dim_compatible Hby Hbx Hcompat), HA. cbn [bind].
  replace (seq 0 (Nat.max by_ bx))
    with (seq 0 b ++ b :: seq (S b) (Nat.max by_ bx - S b)).
  - rewrite (@mapM_first_raise _ _ _ e); [reflexivity| |].
    + intros b' Hb'. apply in_seq in Hb'.
      rewrite (index_slice y Hy), (index_slice x0 Hx0) by lia.
      cbn [bind]. specialize (Hbefore b' ltac:(lia)).
      unfold solve_of in Hbefore.
      destruct (cg A _ _ _ _ _) as [[x info]|e']; [reflexivity|discriminate].
    + rewrite (index_slice y Hy), (index_slice x0 Hx0) by lia.
      cbn [bind]. unfold solve_of in Hat. now rewrite Hat.
  - change (b :: seq (S b) (Nat.max by_ bx - S b))
      with (seq b (S (Nat.max by_ bx - S b))).
    replace b with (0 + b)%nat at 2 by lia.
    rewrite <- seq_app. f_equal. lia.
Qed.

(** With empty batches of right-hand sides and initial guesses the loop
    does not run: the result slot is written with [success=True] and the
    stacking of no solutions then raises [ValueError]. *)
Theorem conjugate_gradient_of_empty_batch (A : LinearOperator)
        (y x0 : Tensor Q) (solve_params : LinearSolve) (sy sx : list nat) :
  shape y = 0%nat :: sy ->
  shape x0 = 0%nat :: sx ->
  operator_batch A = None ->
  conjugate_gradient cg A y x0 solve_params
  = (Raise ValueError, set_result solve_params (mkSolveResult true (-1))).
Proof.
  intros Hy Hx0 HA.
  unfold conjugate_gradient, solve_batches, dim0.
  rewrite Hy, Hx0, HA. reflexivity.
Qed.

End ConjugateGradient.

Definition empty_batch : Tensor Q := mkTensor [0; 2]%nat (fun _ => 0%Q).

Lemma conjugate_gradient_of_empty_batch_witness :
  conjugate_gradient cg_exact (Dense spd_matrix) empty_batch empty_batch
                     (solve_with_cap 2)
  = (Raise ValueError,
     set_result (solve_with_cap 2) (mkSolveResult true (-1))).
Proof.
  exact (@conjugate_gradient_of_empty_batch unit cg_exact (Dense spd_matrix)
           empty_batch empty_batch (solve_with_cap 2) [2%nat] [2%nat]
           eq_refl eq_refl eq_refl).
Defined.

(** A solver that refuses a right-hand side whose first entry is zero and
    runs the exact iteration on every other one: an engine call that fails
    part-way through a batch. *)
Definition cg_refusing (A : LinearOperator) (b x0 : Tensor Q) (tol atol : Q)
           (maxiter : nat) : result (Tensor Q * unit) :=
  if Qeq_bool (elem b [0%nat]) 0 then Raise ValueError
  else cg_exact A b x0 tol atol maxiter.

(** Of the four right-hand sides [[1, 2], [0, 1], [1, 0], [5, 4]] the first
    is solved and the second is refused: the call raises and the result
    slot of [solve_params] is as it was. *)
Lemma conjugate_gradient_propagates_exception_witness :
  is_ok (solve_of cg_refusing (Dense spd_matrix) rhs_batch4 guess_batch1
                  (solve_with_cap 2) 4 1 0) = true /\
  conjugate_gradient cg_refusing (Dense spd_matrix) rhs_batch4 guess_batch1
                     (solve_with_cap 2)
  = (Raise ValueError, solve_with_cap 2).
Proof.
  split; [reflexivity|].
  apply (@conjugate_gradient_propagates_exception
           unit cg_refusing (Dense spd_matrix) rhs_batch4 guess_batch1
           (solve_with_cap 2) 4 1 1 [2%nat] [2%nat] ValueError
           eq_refl eq_refl).
  - lia.
  - lia.
  - right; right; reflexivity.
  - reflexivity.
  - cbn. lia.
  - intros b' Hb'. destruct b' as [|b']; [reflexivity|lia].
  - reflexivity.
Defined.

End SolverFacts.

(** ** [expand_dims] and [boolean_mask] *)

Module Shapes.
Import Array.

(** [jnp.expand_dims(a, axis)]: a new axis of extent 1 at position [axis],
    counted from the end when negative; a position outside
    [[-(rank + 1), rank]] is refused. *)
Definition jnp_expand_dims {A : Type} (a : Tensor A) (axis : Z)
  : result (Tensor A) :=
  let r := Z.of_nat (List.length (shape a)) in
  let ax := if axis <? 0 then axis + r + 1 else axis in
  if (0 <=? ax) && (ax <=? r) then
    let k := Z.to_nat ax in
    Ok (mkTensor (firstn k (shape a) ++ 1%nat :: skipn k (shape a))
          (fun pos => elem a (firstn k pos ++ skipn (S k) pos)))
  else Raise ValueError.

(** The loop [for _i in range(number): a = jnp.expand_dims(a, axis)]. *)
Fixpoint expand_dims {A : Type} (a : Tensor A) (axis : Z) (number : nat)
  : result (Tensor A) :=
  match number with
  | O => Ok a
  | S number' =>
      a' <- jnp_expand_dims a axis ;; expand_dims a' axis number'
  end.

(** An entry of an index tuple: a boolean array or [slice(None)]. *)
Inductive Slice : Type :=
| Mask (m : Tensor bool)
| Full.

Definition set_nth {A : Type} (k : nat) (v : A) (l : list A) : list A :=
  firstn k l ++ match skipn k l with
                | [] => []
                | _ :: rest => v :: rest
                end.

Definition kept (mask : Tensor bool) (n : nat) : list nat :=
  filter (fun i => elem mask [i]) (seq 0 n).

(** The entries of [x] at the indices [idx] along axis [k]. *)
Definition select {A : Type} (x : Tensor A) (k : nat) (idx : list nat)
  : Tensor A :=
  mkTensor (set_nth k (List.length idx) (shape x))
    (fun pos => elem x (set_nth k (nth (nth k pos 0%nat) idx 0%nat) pos)).

(** [x[tuple(slices)]] on an array of the engine, entry by entry from axis
    [k] on: [slice(None)] keeps the axis; a one-dimensional boolean array
    as long as the axis keeps the entries at which it is true.  A boolean
    array without axes is refused with [TypeError]; one of another length,
    or with more axes than the tuple leaves to it, with [IndexError], as a
    tuple longer than the rank is.  The tuples built below hold at most one
    boolean array. *)
Fixpoint getitem_from {A : Type} (x : Tensor A) (k : nat)
         (slices : list Slice) : result (Tensor A) :=
  match slices with
  | [] => Ok x
  | Full :: rest => getitem_from x (S k) rest
  | Mask m :: rest =>
      match shape m with
      | [] => Raise TypeError
      | [n] =>
          if (n =? nth k (shape x) 0)%nat
          then getitem_from (select x k (kept m n)) (S k) rest
          else Raise IndexError
      | _ => Raise IndexError
      end
  end.

Definition getitem {A : Type} (x : Tensor A) (slices : list Slice)
  : result (Tensor A) :=
  if (List.length (shape x) <? List.length slices)%nat
  then Raise IndexError
  else getitem_from x 0 slices.

(** [boolean_mask]: the tuple holds [mask] at the position equal to [axis]
    and [slice(None)] at every other position of [x.shape]. *)
Definition boolean_mask {A : Type} (x : Tensor A) (mask : Tensor bool)
           (axis : Z) : result (Tensor A) :=
  let slices := map (fun i => if Z.of_nat i =? axis then Mask mask else Full)
                    (seq 0 (List.length (shape x))) in
  getitem x slices.

(** *** [expand_dims] *)

Lemma firstn_exact (A : Type) (l1 l2 : list A) (k : nat) :
  List.length l1 = k -> firstn k (l1 ++ l2) = l1.
Proof.
  intros <-. rewrite firstn_app, Nat.sub_diag, firstn_all. cbn.
  apply app_nil_r.
Qed.

Lemma skipn_exact (A : Type) (l1 l2 : list A) (k : nat) :
  List.length l1 = k -> skipn k (l1 ++ l2) = l2.
Proof.
  intros <-. rewrite skipn_app, Nat.sub_diag, skipn_all. reflexivity.
Qed.

(** For an axis [k] between 0 and the rank, [expand_dims(a, k, number)]
    returns [a] with [number] axes of extent 1 inserted at position [k]:
    the entry at a position is the entry of [a] at that position without
    its [number] coordinates from [k] on. *)
Theorem expand_dims_inserts_unit_axes (A : Type) (number : nat) :
  forall (a : Tensor A) (k : nat),
    (k <= List.length (shape a))%nat ->
    exists out,
      expand_dims a (Z.of_nat k) number = Ok out /\
      shape out
      = firstn k (shape a) ++ repeat 1%nat number ++ skipn k (shape a) /\
      forall pos, (k <= List.length pos)%nat ->
        elem out pos = elem a (firstn k pos ++ skipn (k + number) pos).
Proof.
  induction number as [|number IH]; intros a k Hk.
  - exists a. split; [reflexivity|]. split.
    + cbn [repeat app]. now rewrite firstn_skipn.
    + intros pos _. now rewrite Nat.add_0_r, firstn_skipn.
  - cbn [expand_dims]. unfold jnp_expand_dims.
    replace (Z.of_nat k <? 0) with false by (symmetry; apply Z.ltb_ge; lia).
    replace ((0 <=? Z.of_nat k)
             && (Z.of_nat k <=? Z.of_nat (List.length (shape a))))
      with true
      by (symmetry; apply andb_true_intro; split; apply Z.leb_le; lia).
    cbn [bind]. rewrite Nat2Z.id.
    set (a' := mkTensor (firstn k (shape a) ++ 1%nat :: skipn k (shape a))
                 (fun pos => elem a (firstn k pos ++ skipn (S k) pos))).
    assert (Hlen : List.length (firstn k (shape a)) = k)
      by (apply firstn_length_le; lia).
    destruct (IH a' k) as (out & Hout & Hshape & Helem).
    { cbn [a' shape]. rewrite length_app, Hlen. lia. }
    exists out. split; [exact Hout|]. split.
    + rewrite Hshape. cbn [a' shape].
      rewrite (firstn_exact _ _ Hlen), (skipn_exact _ _ Hlen).
      f_equal. change (1%nat :: skipn k (shape a))
        with ([1%nat] ++ skipn k (shape a)).
      rewrite app_assoc. f_equal.
      change [1%nat] with (repeat 1%nat 1). rewrite <- repeat_app.
      now rewrite Nat.add_1_r.
    + intros pos Hpos. rewrite (Helem pos Hpos). cbn [a' elem].
      assert (Hp : List.length (firstn k pos) = k)
        by (apply firstn_length_le; lia).
      rewrite (firstn_exact _ _ Hp).
      replace (skipn (S k) (firstn k pos ++ skipn (k + number) pos))
        with (skipn 1 (skipn k (firstn k pos ++ skipn (k + number) pos)))
        by (rewrite skipn_skipn; f_equal; lia).
      rewrite (skipn_exact _ _ Hp), skipn_skipn.
      replace (1 + (k + number))%nat with (k + S number)%nat by lia.
      reflexivity.
Qed.

Lemma expand_dims_inserts_unit_axes_witness :
  exists out,
    expand_dims (ones [2; 3]%nat) (Z.of_nat 1) 2 = Ok out /\
    shape out
    = firstn 1 [2; 3]%nat ++ repeat 1%nat 2 ++ skipn 1 [2; 3]%nat /\
    forall pos, (1 <= List.length pos)%nat ->
      elem out pos = elem (ones [2; 3]%nat) (firstn 1 pos ++ skipn (1 + 2) pos).
Proof.
  apply (@expand_dims_inserts_unit_axes Q 2 (ones [2; 3]%nat) 1).
  cbn. lia.
Defined.

Example expand_dims_shape :
  exists out,
    expand_dims (ones [2; 3]%nat) 1 2 = Ok out /\
    shape out = [2; 1; 1; 3]%nat.
Proof. eexists. split; reflexivity. Qed.

Example expand_dims_beyond_rank :
  expand_dims (ones [2; 3]%nat) 3 1 = Raise ValueError.
Proof. reflexivity. Qed.

(** *** [boolean_mask] *)

Lemma map_constant (A B : Type) (f : A -> B) (c : B) (l : list A) :
  (forall a, In a l -> f a = c) -> map f l = repeat c (List.length l).
Proof.
  induction l as [|a l IH]; intros H; [reflexivity|].
  cbn [map List.length repeat].
  rewrite (H a (or_introl eq_refl)), IH; [reflexivity|].
  intros a' Ha'. apply H. now right.
Qed.

Lemma getitem_from_full (A : Type) (n : nat) :
  forall (x : Tensor A) (k : nat) (rest : list Slice),
    getitem_from x k (repeat Full n ++ rest) = getitem_from x (n + k) rest.
Proof.
  induction n as [|n IH]; intros x k rest; [reflexivity|].
  cbn [repeat app getitem_from]. rewrite IH. f_equal. lia.
Qed.

Lemma getitem_from_all_full (A : Type) (n : nat) (x : Tensor A) (k : nat) :
  getitem_from x k (repeat Full n) = Ok x.
Proof.
  rewrite <- (app_nil_r (repeat Full n)). now rewrite getitem_from_full.
Qed.

(** The tuple that [boolean_mask] builds for an [axis] of [x]: [mask] at
    position [axis] between full slices. *)
Lemma slices_of_axis (mask : Tensor bool) (k r : nat) :
  (k < r)%nat ->
  map (fun i => if Z.of_nat i =? Z.of_nat k then Mask mask else Full)
      (seq 0 r)
  = repeat Full k ++ Mask mask :: repeat Full (r - S k).
Proof.
  intros Hk.
  replace r with (k + S (r - S k))%nat at 1 by lia.
  rewrite seq_app, map_app. cbn [seq map Nat.add].
  rewrite Z.eqb_refl. f_equal; [|f_equal].
  - rewrite (@map_constant _ _ _ Full).
    + now rewrite length_seq.
    + intros i Hi. apply in_seq in Hi.
      destruct (Z.eqb_spec (Z.of_nat i) (Z.of_nat k)); [lia|reflexivity].
  - rewrite (@map_constant _ _ _ Full).
    + now rewrite length_seq.
    + intros i Hi. apply in_seq in Hi.
      destruct (Z.eqb_spec (Z.of_nat i) (Z.of_nat k)); [lia|reflexivity].
Qed.

(** An [axis] that is negative or not below the rank of [x] is no position
    of [x.shape], so the tuple holds full slices only: [boolean_mask]
    returns [x] as it is and never looks at the mask, whatever its shape. *)
Theorem boolean_mask_outside_axis (A : Type) (x : Tensor A)
        (mask : Tensor bool) (axis : Z) :
  axis < 0 \/ Z.of_nat (List.length (shape x)) <= axis ->
  boolean_mask x mask axis = Ok x.
Proof.
  intros Hax. unfold boolean_mask, getitem.
  rewrite length_map, length_seq, Nat.ltb_irrefl.
  rewrite (@map_constant _ _ _ Full).
  - apply getitem_from_all_full.
  - intros i Hi. apply in_seq in Hi.
    destruct (Z.eqb_spec (Z.of_nat i) axis); [lia|reflexivity].
Qed.

Lemma nth_set_nth (A : Type) (k : nat) (v d : A) (l : list A) :
  (k < List.length l)%nat -> nth k (set_nth k v l) d = v.
Proof.
  intros Hk. unfold set_nth.
  assert (Hlen : List.length (firstn k l) = k)
    by (apply firstn_length_le; lia).
  rewrite app_nth2 by lia. rewrite Hlen, Nat.sub_diag.
  destruct (skipn k l) as [|a rest] eqn:Hs; [|reflexivity].
  apply (f_equal (@List.length A)) in Hs. rewrite length_skipn in Hs.
  cbn in Hs. lia.
Qed.

(** For an [axis] of [x] and a mask with one entry per index along it, the
    result has as many entries along [axis] as the mask has true entries,
    and its [j]-th entry along [axis] is the entry of [x] at an index [i]
    where the mask is true. *)
Theorem boolean_mask_keeps_true_entries (A : Type) (x : Tensor A)
        (mask : Tensor bool) (k n : nat) :
  (k < List.length (shape x))%nat ->
  shape mask = [n] ->
  nth k (shape x) 0%nat = n ->
  exists out,
    boolean_mask x mask (Z.of_nat k) = Ok out /\
    nth k (shape out) 0%nat
    = List.length (filter (fun i => elem mask [i]) (seq 0 n)) /\
    forall pos, (nth k pos 0%nat < nth k (shape out) 0%nat)%nat ->
      exists i, (i < n)%nat /\ elem mask [i] = true /\
                elem out pos = elem x (set_nth k i pos).
Proof.
  intros Hk Hm Hn.
  exists (select x k (kept mask n)). split; [|split].
  - unfold boolean_mask, getitem.
    rewrite length_map, length_seq, Nat.ltb_irrefl.
    rewrite (slices_of_axis mask Hk), getitem_from_full.
    cbn [getitem_from]. rewrite Hm, Nat.add_0_r, Hn, Nat.eqb_refl.
    apply getitem_from_all_full.
  - cbn [select shape]. now apply nth_set_nth.
  - cbn [select shape elem].
    assert (Hcount : nth k (set_nth k (List.length (kept mask n)) (shape x))
                         0%nat = List.length (kept mask n))
      by (now apply nth_set_nth).
    intros pos Hpos. rewrite Hcount in Hpos.
    exists (nth (nth k pos 0%nat) (kept mask n) 0%nat).
    assert (Hin : In (nth (nth k pos 0%nat) (kept mask n) 0%nat)
                     (kept mask n))
      by (now apply nth_In).
    unfold kept in Hin at 2. apply filter_In in Hin as [Hseq Htrue].
    apply in_seq in Hseq. repeat split; [lia|exact Htrue].
Qed.

Definition mask_example : Tensor bool :=
  mkTensor [3%nat] (fun pos => nth (hd 0%nat pos) [true; false; true] false).

Lemma boolean_mask_outside_axis_witness :
  boolean_mask Indexing.gather_values mask_example (-1)
  = Ok Indexing.gather_values.
Proof.
  apply (@boolean_mask_outside_axis Q Indexing.gather_values mask_example (-1)).
  left. lia.
Defined.

Lemma boolean_mask_keeps_true_entries_witness :
  exists out,
    boolean_mask Indexing.gather_values mask_example (Z.of_nat 0) = Ok out /\
    nth 0 (shape out) 0%nat
    = List.length (filter (fun i => elem mask_example [i]) (seq 0 3)) /\
    forall pos, (nth 0 pos 0%nat < nth 0 (shape out) 0%nat)%nat ->
      exists i, (i < 3)%nat /\ elem mask_example [i] = true /\
                elem out pos = elem Indexing.gather_values (set_nth 0 i pos).
Proof.
  apply (@boolean_mask_keeps_true_entries Q Indexing.gather_values
           mask_example 0 3).
  - cbn. lia.
  - reflexivity.
  - reflexivity.
Defined.

Example boolean_mask_example :
  exists out,
    boolean_mask Indexing.gather_values mask_example 0 = Ok out /\
    shape out = [2; 2]%nat /\
    map (elem out) [[0; 0]; [0; 1]; [1; 0]; [1; 1]]%nat = [1; 2; 5; 6]%Q.
Proof. eexists. repeat split. Qed.

(** A mask of three entries does not fit the second axis of extent 2. *)
Example boolean_mask_of_other_length :
  boolean_mask Indexing.gather_values mask_example 1 = Raise IndexError.
Proof. reflexivity. Qed.

End Shapes.

(** ** [conjugate_gradient]: batch elements do not influence each other *)

Module SolverBatches.
Import Array Solver.

Section ConjugateGradient.

Variable Info : Type.
Variable cg : LinearOperator -> Tensor Q -> Tensor Q -> Q -> Q -> nat
              -> result (Tensor Q * Info).

Lemma conjugate_gradient_rows (A : LinearOperator) (y x0 : Tensor Q)
      (solve_params : LinearSolve) (by_ bx : nat) (sy sx : list nat) :
  shape y = by_ :: sy ->
  shape x0 = bx :: sx ->
  (1 <= by_)%nat -> (1 <= bx)%nat ->
  by_ = bx \/ by_ = 1%nat \/ bx = 1%nat ->
  operator_batch A = None ->
  (forall b, (b < Nat.max by_ bx)%nat ->
     is_ok (SolverFacts.solve_of cg A y x0 solve_params by_ bx b) = true) ->
  exists out,
    fst (conjugate_gradient cg A y x0 solve_params) = Ok out /\
    forall b, (b < Nat.max by_ bx)%nat ->
      exists x info,
        SolverFacts.solve_of cg A y x0 solve_params by_ bx b = Ok (x, info) /\
        forall r, elem out (b :: r) = elem x r.
Proof.
  intros Hy Hx0 Hby Hbx Hcompat HA Hcg.
  set (f := fun b =>
        r <- SolverFacts.solve_of cg A y x0 solve_params by_ bx b ;;
        let '(x, ret_val) := r in Ok x).
  assert (Hbatch : solve_batches cg A y x0 solve_params
                   = mapM f (seq 0 (Nat.max by_ bx))).
  { unfold solve_batches, dim0. rewrite Hy, Hx0. cbn [bind].
    rewrite (combined_dim_compatible Hby Hbx Hcompat), HA. cbn [bind].
    assert (Hext : forall l,
               (forall b, In b l -> (b < Nat.max by_ bx)%nat) ->
               mapM (fun batch =>
                       y_ <- index y (Nat.min batch (by_ - 1)) ;;
                       x0_ <- index x0 (Nat.min batch (bx - 1)) ;;
                       r <- cg A y_ x0_ (relative_tolerance solve_params)
                               (absolute_tolerance solve_params)
                               (max_iterations solve_params) ;;
                       let '(x, ret_val) := r in Ok x) l
               = mapM f l).
    { induction l as [|b l IH]; intros Hl; [reflexivity|].
      cbn [mapM].
      rewrite (index_slice y Hy), (index_slice x0 Hx0)
        by (specialize (Hl b (or_introl eq_refl)); lia).
      cbn [bind]. rewrite IH by (intros; apply Hl; now right).
      reflexivity. }
    apply Hext. intros b Hb. apply in_seq in Hb. lia. }
  destruct (@mapM_seq_ok _ f (Nat.max by_ bx) 0%nat) as (rs & Hrs & Hlen & Hnth).
  { intros b Hb. cbn [Nat.add]. unfold f. specialize (Hcg b Hb).
    destruct (SolverFacts.solve_of cg A y x0 solve_params by_ bx b)
      as [[x info]|e]; [reflexivity|discriminate]. }
  assert (Hne : rs <> []).
  { intros ->. cbn in Hlen. lia. }
  destruct (stack_elem Hne) as (out & Hout & _ & Helem).
  exists out. unfold conjugate_gradient. rewrite Hbatch, Hrs. cbn [fst].
  split; [exact Hout|].
  intros b Hb. specialize (Hnth b (zeros []) Hb). cbn [Nat.add] in Hnth.
  unfold f in Hnth.
  destruct (SolverFacts.solve_of cg A y x0 solve_params by_ bx b)
    as [[x info]|e]; [|discriminate].
  cbn [bind] in Hnth. injection Hnth as Hx.
  exists x, info. split; [reflexivity|].
  intros r. rewrite (Helem b r (zeros [])) by lia. now rewrite <- Hx.
Qed.

(** Solution [b] depends on row [b] of the inputs only: two calls with the
    same operator and solver settings whose right-hand sides and initial
    guesses coincide at batch element [b] return the same solution there,
    however the other batch elements differ. *)
Theorem conjugate_gradient_batches_are_independent (A : LinearOperator)
        (y x0 y' x0' : Tensor Q) (solve_params : LinearSolve)
        (by_ bx b : nat) (sy sx : list nat) :
  shape y = by_ :: sy -> shape y' = by_ :: sy ->
  shape x0 = bx :: sx -> shape x0' = bx :: sx ->
  (1 <= by_)%nat -> (1 <= bx)%nat ->
  by_ = bx \/ by_ = 1%nat \/ bx = 1%nat ->
  operator_batch A = None ->
  (forall b', (b' < Nat.max by_ bx)%nat ->
     is_ok (SolverFacts.solve_of cg A y x0 solve_params by_ bx b') = true /\
     is_ok (SolverFacts.solve_of cg A y' x0' solve_params by_ bx b') = true) ->
  (b < Nat.max by_ bx)%nat ->
  slice y (Nat.min b (by_ - 1)) = slice y' (Nat.min b (by_ - 1)) ->
  slice x0 (Nat.min b (bx - 1)) = slice x0' (Nat.min b (bx - 1)) ->
  exists out out',
    fst (conjugate_gradient cg A y x0 solve_params) = Ok out /\
    fst (conjugate_gradient cg A y' x0' solve_params) = Ok out' /\
    forall r, elem out (b :: r) = elem out' (b :: r).
Proof.
  intros Hy Hy' Hx0 Hx0' Hby Hbx Hcompat HA Hcg Hb Hsy Hsx.
  destruct (@conjugate_gradient_rows A y x0 solve_params by_ bx sy sx
              Hy Hx0 Hby Hbx Hcompat HA (fun b' H => proj1 (Hcg b' H)))
    as (out & Hout & Hrows).
  destruct (@conjugate_gradient_rows A y' x0' solve_params by_ bx sy sx
              Hy' Hx0' Hby Hbx Hcompat HA (fun b' H => proj2 (Hcg b' H)))
    as (out' & Hout' & Hrows').
  exists out, out'. split; [exact Hout|]. split; [exact Hout'|].
  destruct (Hrows b Hb) as (x & info & Hx & Hel).
  destruct (Hrows' b Hb) as (x' & info' & Hx' & Hel').
  unfold SolverFacts.solve_of in Hx, Hx'.
  rewrite Hsy, Hsx, Hx' in Hx. injection Hx as -> _.
  intros r. now rewrite Hel, Hel'.
Qed.

End ConjugateGradient.

Definition rhs_other : Tensor Q :=
  of_list2 0%Q 4 2 [[1; 2]; [7; 7]; [8; 8]; [9; 9]]%Q.

Lemma conjugate_gradient_batches_are_independent_witness :
  exists out out',
    fst (conjugate_gradient cg_exact (Dense spd_matrix) rhs_batch4
                            guess_batch1 (solve_with_cap 2)) = Ok out /\
    fst (conjugate_gradient cg_exact (Dense spd_matrix) rhs_other
                            guess_batch1 (solve_with_cap 2)) = Ok out' /\
    forall r, elem out (0%nat :: r) = elem out' (0%nat :: r).
Proof.
  apply (@conjugate_gradient_batches_are_independent
           unit cg_exact (Dense spd_matrix) rhs_batch4 guess_batch1
           rhs_other guess_batch1 (solve_with_cap 2) 4 1 0
           [2%nat] [2%nat] eq_refl eq_refl eq_refl eq_refl).
  - lia.
  - lia.
  - right; right; reflexivity.
  - reflexivity.
  - intros b' Hb'. split; reflexivity.
  - cbn. lia.
  - reflexivity.
  - reflexivity.
Defined.

End SolverBatches.

(** ** [fft]: the axes transformed *)

Module Fourier.
Import Array.

Section FFT.

(** [jnp.fft.fft(x, axis=..)], [jnp.fft.fft2(x, axes=..)] and
    [jnp.fft.fftn(x, axes=..)] over arrays of some element type; each may
    refuse its arguments. *)
Variable C : Type.
Variable jnp_fft : Tensor C -> nat -> result (Tensor C).
Variable jnp_fft2 : Tensor C -> list nat -> result (Tensor C).
Variable jnp_fftn : Tensor C -> list nat -> result (Tensor C).

Definition fft (x : Tensor C) : result (Tensor C) :=
  let rank := Z.of_nat (List.length (shape x)) - 2 in
  _ <- assert (1 <=? rank) ;;
  if rank =? 1 then jnp_fft x 1%nat
  else if rank =? 2 then jnp_fft2 x [1; 2]%nat
  else jnp_fftn x (seq 1 (Z.to_nat rank)).

(** The one- and two-dimensional transforms are the general one on their
    axes, and the general one refuses more than three axes with
    [ValueError]. *)
Hypothesis jnp_fft_is_fftn : forall x k, jnp_fft x k = jnp_fftn x [k].
Hypothesis jnp_fft2_is_fftn :
  forall x j k, jnp_fft2 x [j; k] = jnp_fftn x [j; k].
Hypothesis jnp_fftn_refuses :
  forall x axes, (3 < List.length axes)%nat ->
                 jnp_fftn x axes = Raise ValueError.

(** [fft] needs at least three axes and then hands to the engine exactly
    the axes strictly between the first (batch) and the last (channel) one,
    never the batch axis and never the last axis: its result is that of the
    general transform on those axes, which is [ValueError] from six axes
    on. *)
Theorem fft_transforms_the_inner_axes (x : Tensor C) :
  let n := List.length (shape x) in
  ((n < 3)%nat -> fft x = Raise AssertionError) /\
  ((3 <= n)%nat ->
   fft x = jnp_fftn x (seq 1 (n - 2)) /\
   forall k, In k (seq 1 (n - 2)) -> (0 < k < n - 1)%nat) /\
  ((6 <= n)%nat -> fft x = Raise ValueError).
Proof.
  cbv zeta.
  assert (Hinner : (3 <= List.length (shape x))%nat ->
                   fft x = jnp_fftn x (seq 1 (List.length (shape x) - 2))).
  { intros Hn. unfold fft.
    replace (1 <=? Z.of_nat (List.length (shape x)) - 2) with true
      by (symmetry; apply Z.leb_le; lia).
    cbn [assert bind].
    destruct (Z.eqb_spec (Z.of_nat (List.length (shape x)) - 2) 1) as [H1|H1].
    - rewrite jnp_fft_is_fftn.
      replace (List.length (shape x) - 2)%nat with 1%nat by lia.
      reflexivity.
    - destruct (Z.eqb_spec (Z.of_nat (List.length (shape x)) - 2) 2)
        as [H2|H2].
      + rewrite jnp_fft2_is_fftn.
        replace (List.length (shape x) - 2)%nat with 2%nat by lia.
        reflexivity.
      + do 2 f_equal. lia. }
  split; [|split].
  - intros Hn. unfold fft.
    replace (1 <=? Z.of_nat (List.length (shape x)) - 2) with false
      by (symmetry; apply Z.leb_gt; lia).
    reflexivity.
  - intros Hn. split; [now apply Hinner|].
    intros k Hk. apply in_seq in Hk. lia.
  - intros Hn. rewrite Hinner by lia.
    apply jnp_fftn_refuses. rewrite length_seq. lia.
Qed.

End FFT.

(** A stand-in for the engine: the identity on up to three axes. *)
Definition fftn_identity (t : Tensor Q) (axes : list nat)
  : result (Tensor Q) :=
  if (3 <? List.length axes)%nat then Raise ValueError else Ok t.

Lemma fftn_identity_refuses (x : Tensor Q) (axes : list nat) :
  (3 < List.length axes)%nat -> fftn_identity x axes = Raise ValueError.
Proof.
  intros Haxes. unfold fftn_identity.
  apply Nat.ltb_lt in Haxes. now rewrite Haxes.
Qed.

Lemma fft_transforms_the_inner_axes_witness :
  (fft (fun t k => fftn_identity t [k]) fftn_identity fftn_identity
       (ones [2; 4; 4; 1]%nat)
   = fftn_identity (ones [2; 4; 4; 1]%nat) (seq 1 (4 - 2)) /\
   forall k, In k (seq 1 (4 - 2)) -> (0 < k < 4 - 1)%nat) /\
  fft (fun t k => fftn_identity t [k]) fftn_identity fftn_identity
      (ones [2; 4; 4; 4; 4; 1]%nat)
  = Raise ValueError.
Proof.
  split.
  - apply (@fft_transforms_the_inner_axes Q
             (fun t k => fftn_identity t [k]) fftn_identity fftn_identity
             (fun _ _ => eq_refl) (fun _ _ _ => eq_refl)
             fftn_identity_refuses (ones [2; 4; 4; 1]%nat)).
    cbn. lia.
  - apply (@fft_transforms_the_inner_axes Q
             (fun t k => fftn_identity t [k]) fftn_identity fftn_identity
             (fun _ _ => eq_refl) (fun _ _ _ => eq_refl)
             fftn_identity_refuses (ones [2; 4; 4; 4; 4; 1]%nat)).
    cbn. lia.
Defined.

Example fft_of_two_axes :
  fft (fun t k => fftn_identity t [k]) fftn_identity fftn_identity
      (ones [2; 4]%nat)
  = Raise AssertionError.
Proof. reflexivity. Qed.

End Fourier.

(** ** [is_tensor]: nested sequences *)

Module Nesting.
Import Cast.

Section Values.
Variable Arr : Type.

(** The leaves of a value: what is left when every tuple and list, at any
    depth, is opened. *)
Fixpoint leaves (x : Value Arr) : list (Value Arr) :=
  match x with
  | Sequence l => flat_map leaves l
  | _ => [x]
  end.

Definition is_opaque (x : Value Arr) : bool :=
  match x with Opaque => true | _ => false end.

Definition is_native (x : Value Arr) : bool :=
  match x with JaxArray _ => true | _ => false end.

(** Induction over values that reaches into sequences. *)
Lemma Value_nested_ind (P : Value Arr -> Prop) :
  (forall a, P (JaxArray a)) ->
  (forall a, P (NumpyArray a)) ->
  (forall n, P (Number n)) ->
  (forall s, P (Text s)) ->
  (forall l, Forall P l -> P (Sequence l)) ->
  P Opaque ->
  forall x, P x.
Proof.
  intros HJ HN Hn HT HS HO.
  fix IH 1. intros [a|a|n|s|l|].
  - apply HJ.
  - apply HN.
  - apply Hn.
  - apply HT.
  - apply HS. induction l as [|x l IHl]; constructor; [apply IH|exact IHl].
  - apply HO.
Qed.

Lemma forallb_flat_map (A B : Type) (f : A -> list B) (p : B -> bool)
      (l : list A) :
  forallb p (flat_map f l) = forallb (fun a => forallb p (f a)) l.
Proof.
  induction l as [|a l IH]; cbn [flat_map forallb]; [reflexivity|].
  now rewrite forallb_app, IH.
Qed.

(** With [only_native=False], [is_tensor] accepts a value exactly when none
    of its leaves, at whatever depth of tuples and lists, is an object of
    an unsupported type; with [only_native=True] it accepts engine arrays
    only, so what it accepts there it also accepts with
    [only_native=False]. *)
Theorem is_tensor_looks_at_every_leaf (x : Value Arr) :
  is_tensor x false = forallb (fun leaf => negb (is_opaque leaf)) (leaves x) /\
  is_tensor x true = is_native x /\
  (is_tensor x true = true -> is_tensor x false = true).
Proof.
  split; [|split].
  - induction x as [a|a|n|s|l IHl|] using Value_nested_ind;
      try reflexivity.
    cbn [is_tensor leaves]. rewrite forallb_flat_map.
    induction IHl as [|y l Hy _ IH]; cbn [forallb]; [reflexivity|].
    now rewrite Hy, IH.
  - now destruct x.
  - now destruct x.
Qed.

End Values.

Example is_tensor_nested_list :
  is_tensor (Sequence [Number (PyInt 1);
                       Sequence [Number (PyFloat (1 # 2)); @Opaque unit]])
            false
  = false.
Proof. reflexivity. Qed.

End Nesting.
